(** * Dashboard helpers and the Susan chat widget

    A shallow embedding of the logic found in the two dashboard sources
    (the "Agile Leader Dashboard" and "Susan - Project Insight"):

    - [Number]: the percentage helper [calcDefinedPct], over IEEE 754
      binary64 values as JavaScript numbers are;
    - [Str]: JavaScript strings as sequences of UTF-16 code units, with
      [trim];
    - [Dashboard]: the [teams] table and the [statusColor] lookup;
    - [Insight]: the [InsightKey] union and the [titleMap] object;
    - [Chat]: the state of the [SusanChat] component, its [send] handler,
      its timers and the events the rendered widget accepts. *)

From Stdlib Require Import ZArith NArith PArith Bool List Lia.
From Stdlib Require Import Ascii String.
From Stdlib Require Import SpecFloat.
Import ListNotations.


(* ===================================================================== *)
(** * JavaScript numbers                                                  *)
(* ===================================================================== *)

Module Number.

Local Open Scope Z_scope.

(** A JavaScript number is an IEEE 754 binary64 value: 53 bits of
    precision, infinities at exponent 1024. *)
Definition prec : Z := 53.
Definition emax : Z := 1024.

Definition number := spec_float.

Definition NaN : number := S754_nan.
Definition pzero : number := S754_zero false.
Definition nzero : number := S754_zero true.
Definition pinf : number := S754_infinity false.
Definition ninf : number := S754_infinity true.

(** The number whose value is the integer [n] (exact for |n| <= 2^53). *)
Definition of_Z (n : Z) : number := binary_normalize prec emax n 0 false.

(** A decimal literal written [num/den] in the source denotes the binary64
    value nearest to that rational (ties to even); the correctly rounded
    quotient of two exactly represented integers is that value. *)
Definition lit (num den : Z) : number :=
  SFdiv prec emax (of_Z num) (of_Z den).

Definition neg (x : number) : number := SFopp x.
Definition mul (x y : number) : number := SFmul prec emax x y.
Definition ltb (x y : number) : bool := SFltb x y.

Definition is_nan (x : number) : bool :=
  match x with S754_nan => true | _ => false end.
Definition is_pzero (x : number) : bool :=
  match x with S754_zero false => true | _ => false end.
Definition is_nzero (x : number) : bool :=
  match x with S754_zero true => true | _ => false end.

Definition valid (x : number) : bool := valid_binary prec emax x.

(** ** Math.max and Math.min

    Both walk their arguments left to right from -Infinity (resp.
    +Infinity); a NaN argument gives NaN, and +0 counts as larger than -0. *)
Fixpoint max_loop (highest : number) (args : list number) : number :=
  match args with
  | [] => highest
  | n :: rest =>
      if is_nan n then NaN
      else
        let highest := if is_pzero n && is_nzero highest then pzero else highest in
        let highest := if ltb highest n then n else highest in
        max_loop highest rest
  end.

Definition Math_max (args : list number) : number := max_loop ninf args.

Fixpoint min_loop (lowest : number) (args : list number) : number :=
  match args with
  | [] => lowest
  | n :: rest =>
      if is_nan n then NaN
      else
        let lowest := if is_nzero n && is_pzero lowest then nzero else lowest in
        let lowest := if ltb n lowest then n else lowest in
        min_loop lowest rest
  end.

Definition Math_min (args : list number) : number := min_loop pinf args.

(** ** Math.round

    NaN, the infinities, the zeros and integral values are returned as they
    are.  A value in (0, 0.5) gives +0 and a value in [-0.5, 0) gives -0.
    Otherwise the result is the integer nearest to the argument, the one
    toward +Infinity when two are equally near: floor(x + 1/2), computed
    exactly on the mantissa. *)
Definition round_half_up (m e : Z) : Z :=
  (* floor (m * 2^e + 1/2) for e < 0 *)
  (2 * m + 2 ^ (- e)) / 2 ^ (1 - e).

Definition Math_round (x : number) : number :=
  match x with
  | S754_finite s m e =>
      if 0 <=? e then x
      else
        let n := round_half_up (cond_Zopp s (Zpos m)) e in
        binary_normalize prec emax n 0 s
  | _ => x
  end.

(** ** The helper of the dashboard

    [Math.round(Math.max(0, Math.min(1, ratio)) * 100)] *)
Definition calcDefinedPct (ratio : number) : number :=
  Math_round (mul (Math_max [of_Z 0; Math_min [of_Z 1; ratio]]) (of_Z 100)).

(** [x <= y] on numbers, false when either side is NaN. *)
Definition leb (x y : number) : bool := SFleb x y.

Definition add (x y : number) : number := SFadd prec emax x y.
Definition sub (x y : number) : number := SFsub prec emax x y.

(** The same value in the sense of [Object.is]: the two zeros differ and
    NaN is the same as NaN. *)
Definition same (x y : number) : bool :=
  match x, y with
  | S754_zero a, S754_zero b => Bool.eqb a b
  | S754_infinity a, S754_infinity b => Bool.eqb a b
  | S754_nan, S754_nan => true
  | S754_finite a m e, S754_finite b m' e' =>
      Bool.eqb a b && Pos.eqb m m' && Z.eqb e e'
  | _, _ => false
  end.

(** The integers from 0 to [n], in order. *)
Definition upto (n : nat) : list Z := List.map Z.of_nat (seq 0 (S n)).

(** ** The contract in its own words

    The three steps the helper is said to take, each stated without the
    code of [Math_min], [Math_max] and [Math_round], to be compared with
    [calcDefinedPct] itself. *)

(** [c] is [x] clamped to the closed interval [0,1]: 0 when [x <= 0], 1 when
    [1 <= x], and [x] itself when [0 < x < 1]. *)
Definition clamps_to (x c : number) : Prop :=
  (SFleb x (of_Z 0) = true /\ c = of_Z 0) \/
  (SFleb (of_Z 1) x = true /\ c = of_Z 1) \/
  (SFltb (of_Z 0) x = true /\ SFltb x (of_Z 1) = true /\ c = x).

(** [n] is the integer nearest to the exact value of the finite number [y],
    the upper one when two are equally near: [n - 1/2 <= y < n + 1/2].
    For [y = v * 2^e] with [e < 0] both sides are multiplied by [2 * 2^(-e)]. *)
Definition nearest_half_up (y : number) (n : Z) : Prop :=
  match y with
  | S754_zero _ => n = 0
  | S754_finite s m e =>
      let v := cond_Zopp s (Zpos m) in
      if 0 <=? e then n = v * 2 ^ e
      else (2 * n - 1) * 2 ^ (- e) <= 2 * v < (2 * n + 1) * 2 ^ (- e)
  | _ => False
  end.

(** The values between 0 and 100 that the product of the clamp with 100
    can take: +0, or a positive finite [m * 2^e] with [m * 2^e <= 100]. *)
Definition at_most_100 (y : number) : Prop :=
  y = pzero \/
  exists m e, y = S754_finite false m e /\ e <= -46 /\ Zpos m <= 100 * 2 ^ (- e).

End Number.

(* ===================================================================== *)
(** * JavaScript strings                                                  *)
(* ===================================================================== *)

Module Str.

Local Open Scope N_scope.

(** A JavaScript string is a sequence of UTF-16 code units. *)
Definition jsstring := list N.

(** An ASCII literal of the source, one code unit per character. *)
Definition lit (s : string) : jsstring :=
  List.map N_of_ascii (list_ascii_of_string s).

(** The code unit of the double quote character. *)
Definition dquote : N := 34.

(** [a === b] on strings: the same code units in the same order. *)
Fixpoint eqb (a b : jsstring) : bool :=
  match a, b with
  | [], [] => true
  | x :: a', y :: b' => N.eqb x y && eqb a' b'
  | _, _ => false
  end.

(** A string is falsy exactly when it is empty. *)
Definition falsy (s : jsstring) : bool :=
  match s with [] => true | _ => false end.

(** The code units [trim] strips: WhiteSpace (TAB, VT, FF, ZWNBSP and the
    space separators) and LineTerminator (LF, CR, LS, PS). *)
Definition isWhiteSpace (c : N) : bool :=
  (c =? 9) || (c =? 10) || (c =? 11) || (c =? 12) || (c =? 13) ||
  (c =? 32) || (c =? 160) || (c =? 5760) ||
  ((8192 <=? c) && (c <=? 8202)) ||
  (c =? 8232) || (c =? 8233) || (c =? 8239) || (c =? 8287) ||
  (c =? 12288) || (c =? 65279).

Fixpoint trimStart (s : jsstring) : jsstring :=
  match s with
  | [] => []
  | c :: rest => if isWhiteSpace c then trimStart rest else s
  end.

Definition trimEnd (s : jsstring) : jsstring :=
  List.rev (trimStart (List.rev s)).

Definition trim (s : jsstring) : jsstring := trimEnd (trimStart s).

(** [s.startsWith(p)] and [s.includes(p)] *)
Fixpoint startsWith (s p : jsstring) : bool :=
  match p, s with
  | [], _ => true
  | x :: p', y :: s' => N.eqb x y && startsWith s' p'
  | _ :: _, [] => false
  end.

Fixpoint includes (s p : jsstring) : bool :=
  startsWith s p ||
  match s with
  | [] => false
  | _ :: s' => includes s' p
  end.

End Str.

(* ===================================================================== *)
(** * The Agile Leader Dashboard: data and lookups                        *)
(* ===================================================================== *)

Module Dashboard.

Import Str.

Record kpis_t := {
  undefinedCount : Number.number;
  definedRatio : Number.number;
  plannedPoints : Number.number;
  nextSprintPoints : Number.number;
  avgVelocity : Number.number
}.

Definition kpis : kpis_t := {|
  undefinedCount := Number.of_Z 35;
  definedRatio := Number.lit 67 100;
  plannedPoints := Number.of_Z 78;
  nextSprintPoints := Number.of_Z 24;
  avgVelocity := Number.lit 416 10
|}.

Record team := { name : jsstring; status : jsstring; prev : jsstring; backlog : Z }.

Definition teams : list team := [
  {| name := lit "AAA2(Design&Platform)"; status := lit "Red"; prev := lit "Red"; backlog := 18 |};
  {| name := lit "DelEng&Support(DesignPlatform)"; status := lit "Red"; prev := lit "Red"; backlog := 22 |};
  {| name := lit "OrangeSquad(DesignPlatform)"; status := lit "Yellow"; prev := lit "Green"; backlog := 9 |};
  {| name := lit "Solution(Design&Dev)"; status := lit "Green"; prev := lit "Green"; backlog := 54 |};
  {| name := lit "SupportTeam(DesignPlatform)"; status := lit "Red"; prev := lit "Orange"; backlog := 8 |};
  {| name := lit "SystemTeam(DesignPlatform)"; status := lit "Red"; prev := lit "Red"; backlog := 12 |}
].

(** The three tags of the status enumeration. *)
Definition is_status_tag (s : jsstring) : bool :=
  eqb s (lit "Red") || eqb s (lit "Yellow") || eqb s (lit "Green").

Definition statusColor (s : jsstring) : jsstring :=
  if eqb s (lit "Green") then lit "bg-emerald-500"
  else if eqb s (lit "Yellow") then lit "bg-yellow-400"
  else lit "bg-rose-500".

(** The two slices of the donut chart:
    [{ name: "Defined", value: calcDefinedPct(ratio) },
     { name: "Undefined", value: 100 - calcDefinedPct(ratio) }] *)
Definition donutData_of (k : kpis_t) : list (jsstring * Number.number) := [
  (lit "Defined", Number.calcDefinedPct (definedRatio k));
  (lit "Undefined",
   Number.sub (Number.of_Z 100) (Number.calcDefinedPct (definedRatio k)))
].

Definition donutData : list (jsstring * Number.number) := donutData_of kpis.

End Dashboard.

(* ===================================================================== *)
(** * Susan - Project Insight: views and titles                           *)
(* ===================================================================== *)

Module Insight.

Import Str.

(** [type InsightKey = "recommendation" | "risk" | "achievement" | "ai"
                     | "teamPlanning" | "healthPerformance"] *)
Inductive InsightKey :=
| recommendation | risk | achievement | ai | teamPlanning | healthPerformance.

(** The string each member of the union is. *)
Definition key_name (k : InsightKey) : jsstring :=
  match k with
  | recommendation => lit "recommendation"
  | risk => lit "risk"
  | achievement => lit "achievement"
  | ai => lit "ai"
  | teamPlanning => lit "teamPlanning"
  | healthPerformance => lit "healthPerformance"
  end.

Definition all_keys : list InsightKey :=
  [recommendation; risk; achievement; ai; teamPlanning; healthPerformance].

(** An object literal: its own properties in the order written. *)
Definition object := list (jsstring * jsstring).

(** [o[k]]: the value of property [k], [None] for undefined. *)
Fixpoint get (o : object) (k : jsstring) : option jsstring :=
  match o with
  | [] => None
  | (k', v) :: rest => if eqb k' k then Some v else get rest k
  end.

(** U+2011, the non-breaking hyphen of the "AI-Generated" title. *)
Definition nb_hyphen : N := 8209%N.

Definition titleMap : object := [
  (lit "recommendation", lit "Executive Summary: Insights and Recommendations");
  (lit "risk", lit "Executive Summary: Risks and Mitigations");
  (lit "achievement", lit "Executive Summary: Highlights and Opportunities");
  (lit "ai", lit "Executive Summary: AI" ++ [nb_hyphen] ++ lit "Generated Insights");
  (lit "teamPlanning", lit "Executive Summary: Team Planning");
  (lit "healthPerformance", lit "Executive Summary: Health Performance")
].

(** ** The state of [App] *)
Inductive view_t := dashboard | insights.

Record app := {
  view : view_t;
  selected : option InsightKey;
  showTests : bool;
  chatOpen : bool
}.

Definition app_init : app :=
  {| view := dashboard; selected := None; showTests := false; chatOpen := false |}.

(** [openInsights(key)]: [setSelected(key); setView("insights")] *)
Definition openInsights (key : InsightKey) (a : app) : app :=
  {| view := insights; selected := Some key;
     showTests := showTests a; chatOpen := chatOpen a |}.

(** [onBack]: [setView("dashboard")] *)
Definition onBack (a : app) : app :=
  {| view := dashboard; selected := selected a;
     showTests := showTests a; chatOpen := chatOpen a |}.

(** [onToggleTests]: [setShowTests((v) => !v)] *)
Definition onToggleTests (a : app) : app :=
  {| view := view a; selected := selected a;
     showTests := negb (showTests a); chatOpen := chatOpen a |}.

(** The heading of the full view:
    [selected ? titleMap[selected] : titleMap.ai] *)
Definition heading (sel : option InsightKey) : option jsstring :=
  match sel with
  | Some k => get titleMap (key_name k)
  | None => get titleMap (lit "ai")
  end.

(** The buttons of the dashboard that call [onOpen], with their labels,
    in document order: the "AI Insights" tab, then the primary and the
    secondary action of each of the five cards. *)
Definition dashboard_buttons : list (jsstring * InsightKey) := [
  (lit "AI Insights", ai);
  (lit "Apply Suggestion", recommendation); (lit "View in Details", ai);
  (lit "Address Now", risk); (lit "View in Details", risk);
  (lit "View Details", achievement); (lit "View in Details", achievement);
  (lit "Open Planner", teamPlanning); (lit "View in Details", teamPlanning);
  (lit "Review Health", healthPerformance); (lit "View in Details", healthPerformance)
].

(** The clicks [App] reacts to.  A dashboard button exists only in the
    dashboard view, the back button only in the full view; the test toggle
    is in both. *)
Inductive app_event :=
| ClickOpen (i : nat)       (* the i-th button of [dashboard_buttons] *)
| ClickBack
| ClickRunTests.

Definition app_step (e : app_event) (a : app) : app :=
  match e with
  | ClickOpen i =>
      match view a, nth_error dashboard_buttons i with
      | dashboard, Some (_, key) => openInsights key a
      | _, _ => a
      end
  | ClickBack =>
      match view a with
      | insights => onBack a
      | dashboard => a
      end
  | ClickRunTests => onToggleTests a
  end.

Definition app_run (es : list app_event) (a : app) : app :=
  fold_left (fun a e => app_step e a) es a.

End Insight.

(* ===================================================================== *)
(** * The Susan chat widget                                               *)
(* ===================================================================== *)

Module Chat.

Import Str.

Inductive role := user | assistant.

Record message := { m_role : role; content : jsstring }.

(** What a pending callback does when it runs. *)
Inductive task :=
| ReplyTask (text : jsstring)   (* the [setTimeout(..., 600)] of [send] *)
| CloseTask                     (* [setTimeout(onClose, 180)] *)
| AppearTask.                   (* [requestAnimationFrame(() => setAppeared(true))] *)

Record timer := { due : N; job : task }.

(** The state of [SusanChat] ([msg], [loading], [history], [appeared]),
    its [open] prop (the [chatOpen] state of [App]), the clock and the
    callbacks that are scheduled and have not run yet, oldest first. *)
Record widget := {
  msg : jsstring;
  loading : bool;
  history : list message;
  appeared : bool;
  open : bool;
  now : N;
  timers : list timer
}.

Definition greeting : message :=
  {| m_role := assistant;
     content := lit "Hi, I'm Susan. How can I help with insights or summaries?" |}.

Definition init : widget :=
  {| msg := []; loading := false; history := [greeting]; appeared := false;
     open := false; now := 0%N; timers := [] |}.

(** ** State setters *)
Definition setMsg (v : jsstring) (w : widget) : widget :=
  {| msg := v; loading := loading w; history := history w;
     appeared := appeared w; open := open w; now := now w; timers := timers w |}.

Definition setLoading (b : bool) (w : widget) : widget :=
  {| msg := msg w; loading := b; history := history w;
     appeared := appeared w; open := open w; now := now w; timers := timers w |}.

Definition setHistory (f : list message -> list message) (w : widget) : widget :=
  {| msg := msg w; loading := loading w; history := f (history w);
     appeared := appeared w; open := open w; now := now w; timers := timers w |}.

Definition setAppeared (b : bool) (w : widget) : widget :=
  {| msg := msg w; loading := loading w; history := history w;
     appeared := b; open := open w; now := now w; timers := timers w |}.

Definition setChatOpen (b : bool) (w : widget) : widget :=
  {| msg := msg w; loading := loading w; history := history w;
     appeared := appeared w; open := b; now := now w; timers := timers w |}.

(** [setTimeout(job, delay)]: the callback may run once [delay]
    milliseconds have passed. *)
Definition setTimeout (j : task) (delay : N) (w : widget) : widget :=
  {| msg := msg w; loading := loading w; history := history w;
     appeared := appeared w; open := open w; now := now w;
     timers := timers w ++ [{| due := (now w + delay)%N; job := j |}] |}.

(** [requestAnimationFrame(job)]: the callback runs at a later frame. *)
Definition requestAnimationFrame (j : task) (w : widget) : widget :=
  setTimeout j 0 w.

(** ** The handlers *)

(** The canned reply: [`Here's a draft based on: "${text}". (demo)`] *)
Definition reply (text : jsstring) : jsstring :=
  lit "Here's a draft based on: " ++ [dquote] ++ text ++ [dquote] ++ lit ". (demo)".

(** [send] is made anew at each render and closes over the [msg] of that
    render: [msg.trim()] reads the value the render saw, while the setters
    act on the state as it is when they run. *)
Definition send_at (rendered_msg : jsstring) (w : widget) : widget :=
  let text := trim rendered_msg in
  if falsy text then w
  else
    let w := setMsg [] w in
    let w := setHistory (fun h => h ++ [{| m_role := user; content := text |}]) w in
    let w := setLoading true w in
    setTimeout (ReplyTask text) 600 w.

(** The [send] of the current render: the one an event reaches, since the
    component is rendered again after each event. *)
Definition send (w : widget) : widget := send_at (msg w) w.

(** The effect on [open]: it runs when the prop has changed. *)
Definition effect_open (w : widget) : widget :=
  if open w then requestAnimationFrame AppearTask w
  else setAppeared false w.

(** [onOpen] and [onClose] of [App] set [chatOpen]; the effect follows
    when the value is a new one. *)
Definition onOpen (w : widget) : widget :=
  if open w then w else effect_open (setChatOpen true w).

Definition onClose (w : widget) : widget :=
  if open w then effect_open (setChatOpen false w) else w.

Definition handleClose (w : widget) : widget :=
  setTimeout CloseTask 180 (setAppeared false w).

Definition run_task (j : task) (w : widget) : widget :=
  match j with
  | ReplyTask text =>
      let w := setHistory
                 (fun h => h ++ [{| m_role := assistant; content := reply text |}]) w in
      setLoading false w
  | CloseTask => onClose w
  | AppearTask => setAppeared true w
  end.

(** ** Events

    What the page and the clock can do to the widget.  The input, the Send
    button and the Close button exist only while the panel is open, the
    "Ask Susan" button only while it is closed; the Send button is disabled
    while [loading].  A scheduled callback runs once it is due. *)
Inductive event :=
| ClickAskSusan
| ClickClose
| Change (v : jsstring)
| KeyDown (key : jsstring)
| ClickSend
| Tick (dt : N)
| Fire (i : nat).

Fixpoint remove_nth {A : Type} (i : nat) (l : list A) : list A :=
  match i, l with
  | _, [] => []
  | O, _ :: l' => l'
  | S i', x :: l' => x :: remove_nth i' l'
  end.

(** The i-th pending callback leaves the queue. *)
Definition dequeue (i : nat) (w : widget) : widget :=
  {| msg := msg w; loading := loading w; history := history w;
     appeared := appeared w; open := open w; now := now w;
     timers := remove_nth i (timers w) |}.

(** The clock advances by [dt] milliseconds. *)
Definition tick (dt : N) (w : widget) : widget :=
  {| msg := msg w; loading := loading w; history := history w;
     appeared := appeared w; open := open w; now := (now w + dt)%N;
     timers := timers w |}.

(** The i-th pending callback runs, if there is one and it is due. *)
Definition fire (i : nat) (w : widget) : widget :=
  match nth_error (timers w) i with
  | Some t =>
      if (due t <=? now w)%N then run_task (job t) (dequeue i w) else w
  | None => w
  end.

Definition step (e : event) (w : widget) : widget :=
  match e with
  | ClickAskSusan => if open w then w else onOpen w
  | ClickClose => if open w then handleClose w else w
  | Change v => if open w then setMsg v w else w
  | KeyDown key =>
      if open w then (if eqb key (lit "Enter") then send w else w) else w
  | ClickSend => if open w && negb (loading w) then send w else w
  | Tick dt => tick dt w
  | Fire i => fire i w
  end.

Definition run (es : list event) (w : widget) : widget :=
  fold_left (fun w e => step e w) es w.

(** Counting, for the bookkeeping of exchanges. *)
Definition is_user (m : message) : bool :=
  match m_role m with user => true | assistant => false end.

Definition is_assistant (m : message) : bool := negb (is_user m).

Definition is_reply (t : timer) : bool :=
  match job t with ReplyTask _ => true | _ => false end.

Definition count {A : Type} (p : A -> bool) (l : list A) : nat :=
  List.length (filter p l).

(** Letting the widget settle: 600 ms pass, then each pending callback
    runs, oldest first. *)
Definition settle (w : widget) : widget :=
  run (Tick 600 :: repeat (Fire 0) (List.length (timers w))) w.

(** Every assistant entry is the greeting at the very start, or the canned
    reply to a user entry that stands before it. *)
Definition answers_in_order (h : list message) : Prop :=
  forall l1 m l2, h = l1 ++ m :: l2 -> m_role m = assistant ->
    (l1 = [] /\ m = greeting) \/
    (exists text, m = {| m_role := assistant; content := reply text |} /\
                  In {| m_role := user; content := text |} l1).


(** The two facts kept together: the history answers in order, and every
    pending reply is for a user entry that is in the history. *)
Definition replies_owed (w : widget) : Prop :=
  answers_in_order (history w) /\
  forall t text, In t (timers w) -> job t = ReplyTask text ->
                 In {| m_role := user; content := text |} (history w).

End Chat.

(* ===================================================================== *)
(** * Facts about the percentage helper                                   *)
(* ===================================================================== *)

Module NumberFacts.

Import Number.
Local Open Scope Z_scope.

(** ** Binary digits and right shifts *)

Lemma digits2_lower (p : positive) : 2 ^ (Zpos (digits2_pos p) - 1) <= Zpos p.
Proof.
  induction p as [p IH | p IH |]; cbn [digits2_pos].
  - rewrite Pos2Z.inj_succ. replace (Z.succ (Zpos (digits2_pos p)) - 1) with (Z.succ (Zpos (digits2_pos p) - 1)) by lia.
    rewrite Z.pow_succ_r by lia. lia.
  - rewrite Pos2Z.inj_succ. replace (Z.succ (Zpos (digits2_pos p)) - 1) with (Z.succ (Zpos (digits2_pos p) - 1)) by lia.
    rewrite Z.pow_succ_r by lia. lia.
  - reflexivity.
Qed.

Lemma digits2_upper (p : positive) : Zpos p < 2 ^ Zpos (digits2_pos p).
Proof.
  induction p as [p IH | p IH |]; cbn [digits2_pos].
  - rewrite Pos2Z.inj_succ, Z.pow_succ_r by lia. lia.
  - rewrite Pos2Z.inj_succ, Z.pow_succ_r by lia. lia.
  - reflexivity.
Qed.

Lemma Zdigits2_le (m n : Z) : 0 <= m -> 0 <= n -> m < 2 ^ n -> Zdigits2 m <= n.
Proof.
  intros Hm Hn Hlt. destruct m as [| p | p]; cbn [Zdigits2]; try lia.
  destruct (Z_le_gt_dec (Zpos (digits2_pos p)) n) as [|Hgt]; [assumption|].
  pose proof (digits2_lower p) as Hlow.
  assert (2 ^ n <= 2 ^ (Zpos (digits2_pos p) - 1)) by (apply Z.pow_le_mono_r; lia).
  lia.
Qed.

Lemma shr_1_m (mrs : shr_record) : 0 <= shr_m mrs -> shr_m (shr_1 mrs) = shr_m mrs / 2.
Proof.
  destruct mrs as [m r s]; cbn [shr_m]. intros Hm.
  destruct m as [| [p | p |] | p]; cbn [shr_1 shr_m]; try lia; try reflexivity.
  - apply Z.div_unique with (r := 1); lia.
  - apply Z.div_unique with (r := 0); lia.
Qed.

Lemma iter_shr_1_m (p : positive) : forall mrs, 0 <= shr_m mrs ->
  shr_m (iter_pos shr_1 p mrs) = shr_m mrs / 2 ^ Zpos p.
Proof.
  induction p as [p IH | p IH |]; intros mrs Hm; cbn [iter_pos].
  - assert (H1 : 0 <= shr_m (shr_1 mrs)) by (rewrite shr_1_m by assumption; apply Z.div_pos; lia).
    assert (H2 : 0 <= shr_m (iter_pos shr_1 p (shr_1 mrs))) by (rewrite IH by assumption; apply Z.div_pos; lia).
    rewrite IH, IH, shr_1_m by assumption.
    rewrite !Z.div_div by lia.
    f_equal. rewrite Pos2Z.inj_xI. rewrite <- Z.pow_add_r, <- Z.pow_succ_r by lia. f_equal. lia.
  - assert (H2 : 0 <= shr_m (iter_pos shr_1 p mrs)) by (rewrite IH by assumption; apply Z.div_pos; lia).
    rewrite IH, IH by assumption.
    rewrite !Z.div_div by lia.
    f_equal. rewrite Pos2Z.inj_xO. rewrite <- Z.pow_add_r by lia. f_equal. lia.
  - rewrite shr_1_m by assumption. reflexivity.
Qed.

Lemma shr_fexp_spec (m e : Z) (l : location) : 0 <= m ->
  exists k, 0 <= k /\
    snd (shr_fexp prec emax m e l) = e + k /\
    shr_m (fst (shr_fexp prec emax m e l)) = m / 2 ^ k /\
    (k = 0 \/ e + k = fexp prec emax (Zdigits2 m + e)).
Proof.
  intros Hm. unfold shr_fexp, shr.
  assert (Hl : shr_m (shr_record_of_loc m l) = m) by (destruct l as [|[]]; reflexivity).
  destruct (fexp prec emax (Zdigits2 m + e) - e) as [| p | p] eqn:Hk.
  - exists 0. cbn [fst snd]. rewrite Hl, Z.div_1_r. repeat split; lia.
  - exists (Zpos p). cbn [fst snd]. rewrite iter_shr_1_m, Hl by lia. repeat split; lia.
  - exists 0. cbn [fst snd]. rewrite Hl, Z.div_1_r. repeat split; lia.
Qed.

Lemma round_nearest_even_bounds (m : Z) (l : location) :
  m <= round_nearest_even m l <= m + 1.
Proof.
  destruct l as [|[]]; cbn [round_nearest_even]; try lia.
  destruct (Z.even m); lia.
Qed.

Lemma fexp_small (m e : Z) : 0 <= m -> e <= 0 -> m <= 100 * 2 ^ (- e) ->
  fexp prec emax (Zdigits2 m + e) <= -46.
Proof.
  intros Hm He Hb.
  assert (Zdigits2 m <= 7 - e).
  { apply Zdigits2_le; try lia.
    replace (7 - e) with (7 + - e) by lia. rewrite Z.pow_add_r by lia.
    change (2 ^ 7) with 128. assert (0 < 2 ^ (- e)) by (apply Z.pow_pos_nonneg; lia). lia. }
  unfold fexp, emin, prec, emax. lia.
Qed.

Lemma div_pow2_bound (m e k : Z) : 0 <= m -> 0 <= k -> e + k <= 0 ->
  m <= 100 * 2 ^ (- e) -> m / 2 ^ k <= 100 * 2 ^ (- (e + k)).
Proof.
  intros Hm Hk He Hb.
  assert (Hpk : 0 < 2 ^ k) by (apply Z.pow_pos_nonneg; lia).
  apply Z.div_le_upper_bound; [assumption|].
  replace (- e) with (k + - (e + k)) in Hb by lia.
  rewrite Z.pow_add_r in Hb by lia. lia.
Qed.

Lemma binary_round_aux_bound (p ep : Z) (l : location) :
  0 <= p -> ep <= -46 -> p < 100 * 2 ^ (- ep) ->
  at_most_100 (binary_round_aux prec emax false p ep l).
Proof.
  intros Hp Hep Hb. unfold binary_round_aux.
  destruct (shr_fexp_spec p ep l Hp) as (k & Hk & He1 & Hm1 & Hk1).
  destruct (shr_fexp prec emax p ep l) as [mrs1 e1]. cbn [fst snd] in He1, Hm1.
  set (r := round_nearest_even (shr_m mrs1) (loc_of_shr_record mrs1)).
  pose proof (round_nearest_even_bounds (shr_m mrs1) (loc_of_shr_record mrs1)) as Hr.
  fold r in Hr.
  assert (He1' : e1 <= -46).
  { destruct Hk1 as [-> | Hk1]; [lia|]. rewrite He1, Hk1. apply fexp_small; lia. }
  assert (Hq0 : 0 <= shr_m mrs1) by (rewrite Hm1; apply Z.div_pos; [lia | apply Z.pow_pos_nonneg; lia]).
  assert (Hq : shr_m mrs1 < 100 * 2 ^ (- e1)).
  { rewrite Hm1, He1. assert (Hpk : 0 < 2 ^ k) by (apply Z.pow_pos_nonneg; lia).
    apply Z.div_lt_upper_bound; [assumption|].
    replace (- ep) with (k + - (ep + k)) in Hb by lia.
    rewrite Z.pow_add_r in Hb by lia. lia. }
  assert (Hr0 : 0 <= r) by lia.
  assert (Hrb : r <= 100 * 2 ^ (- e1)) by lia.
  destruct (shr_fexp_spec r e1 loc_Exact Hr0) as (k2 & Hk2 & He2 & Hm2 & Hk2').
  destruct (shr_fexp prec emax r e1 loc_Exact) as [mrs2 e2]. cbn [fst snd] in He2, Hm2.
  assert (He2' : e2 <= -46).
  { destruct Hk2' as [-> | Hk2']; [lia|]. rewrite He2, Hk2'. apply fexp_small; lia. }
  assert (Hm2b : shr_m mrs2 <= 100 * 2 ^ (- e2)).
  { rewrite Hm2, He2. apply div_pow2_bound; lia. }
  assert (Hm20 : 0 <= shr_m mrs2) by (rewrite Hm2; apply Z.div_pos; [lia | apply Z.pow_pos_nonneg; lia]).
  destruct (shr_m mrs2) as [| m2 | m2] eqn:Hs.
  - left. reflexivity.
  - right. exists m2, e2.
    replace (e2 <=? emax - prec) with true by (symmetry; apply Z.leb_le; unfold emax, prec; lia).
    repeat split; assumption.
  - lia.
Qed.

Lemma round_half_up_range (m : positive) (e : Z) :
  e <= -46 -> Zpos m <= 100 * 2 ^ (- e) ->
  0 <= round_half_up (Zpos m) e <= 100.
Proof.
  intros He Hb. unfold round_half_up.
  assert (Hd : 0 < 2 ^ (- e)) by (apply Z.pow_pos_nonneg; lia).
  replace (1 - e) with (Z.succ (- e)) by lia. rewrite Z.pow_succ_r by lia.
  remember (2 ^ (- e)) as d eqn:Ed. remember (Zpos m) as z eqn:Ez.
  assert (Hz : 0 < z) by (subst z; lia).
  split.
  - apply Z.div_pos; lia.
  - apply Z.lt_succ_r. apply Z.div_lt_upper_bound; lia.
Qed.

Lemma Math_round_at_most_100 (y : number) :
  at_most_100 y -> exists n, 0 <= n <= 100 /\ Math_round y = of_Z n.
Proof.
  intros [-> | (m & e & -> & He & Hb)].
  - exists 0. split; [lia | reflexivity].
  - exists (round_half_up (Zpos m) e). split.
    + apply round_half_up_range; assumption.
    + unfold Math_round. replace (0 <=? e) with false by (symmetry; apply Z.leb_gt; lia).
      reflexivity.
Qed.

(** The clamp [Math.max(0, Math.min(1, ratio))] *)
Lemma Math_min_1 (x : number) : is_nan x = false ->
  Math_min [of_Z 1; x] = if ltb x (of_Z 1) then x else of_Z 1.
Proof.
  destruct x as [[] | [] | | s m e]; intros Hx; try discriminate; reflexivity.
Qed.

Lemma Math_max_0 (y : number) : is_nan y = false ->
  Math_max [of_Z 0; y] = if ltb (of_Z 0) y then y else of_Z 0.
Proof.
  destruct y as [[] | [] | | s m e]; intros Hy; try discriminate; reflexivity.
Qed.

Lemma clamp_eq (x : number) : is_nan x = false ->
  Math_max [of_Z 0; Math_min [of_Z 1; x]]
  = let y := if ltb x (of_Z 1) then x else of_Z 1 in
    if ltb (of_Z 0) y then y else of_Z 0.
Proof.
  intros Hx. rewrite (Math_min_1 x Hx). apply Math_max_0.
  destruct (ltb x (of_Z 1)); [assumption | reflexivity].
Qed.

Lemma below_one (m : positive) (e : Z) :
  valid (S754_finite false m e) = true ->
  ltb (S754_finite false m e) (of_Z 1) = true ->
  e <= -53 /\ Zpos m < 2 ^ 53.
Proof.
  unfold valid, valid_binary, bounded, canonical_mantissa, ltb, SFltb.
  change (of_Z 1) with (S754_finite false 4503599627370496 (-52)).
  cbn [SFcompare]. intros Hv Hlt.
  apply andb_prop in Hv. destruct Hv as [Hc _]. apply Z.eqb_eq in Hc.
  unfold fexp, emin, prec, emax in Hc.
  pose proof (digits2_lower m) as Hlow. pose proof (digits2_upper m) as Hup.
  assert (Hd : Zpos (digits2_pos m) <= 53) by lia.
  assert (Hm : Zpos m < 2 ^ 53).
  { eapply Z.lt_le_trans; [exact Hup|]. apply Z.pow_le_mono_r; lia. }
  split; [|exact Hm].
  destruct (Z.compare_spec e (-52)) as [He | He | He]; try discriminate; [|lia].
  subst e. assert (Hd53 : Zpos (digits2_pos m) = 53) by lia.
  rewrite Hd53 in Hlow. change (2 ^ (53 - 1)) with 4503599627370496 in Hlow.
  destruct (Pos.compare_cont Eq m 4503599627370496) eqn:E; try discriminate.
  assert (E' : Zpos m < 4503599627370496) by exact E.
  exfalso. apply (Z.lt_irrefl (Zpos m)). eapply Z.lt_le_trans; eassumption.
Qed.

(** C2. The table of reference values: 0 gives 0, 1 gives 100, 1.2 gives
    100, -0.2 gives 0, 0.67 gives 67, 0.345 gives 35 and 0.995 gives 100.
    In the last two the product with 100 is exactly 34.5 and 99.5, and the
    half is rounded up. *)
Theorem calcDefinedPct_table :
  calcDefinedPct (of_Z 0) = of_Z 0 /\
  calcDefinedPct (of_Z 1) = of_Z 100 /\
  calcDefinedPct (lit 12 10) = of_Z 100 /\
  calcDefinedPct (neg (lit 2 10)) = of_Z 0 /\
  calcDefinedPct (lit 67 100) = of_Z 67 /\
  calcDefinedPct (lit 345 1000) = of_Z 35 /\
  calcDefinedPct (lit 995 1000) = of_Z 100 /\
  mul (lit 345 1000) (of_Z 100) = lit 69 2 /\
  mul (lit 995 1000) (of_Z 100) = lit 199 2 /\
  Math_round (lit 69 2) = of_Z 35 /\
  Math_round (lit 199 2) = of_Z 100.
Proof.
  repeat split; vm_compute; reflexivity.
Qed.

(** ** Saturation, NaN and whole percentages *)

Lemma same_eq (x y : number) : same x y = true -> x = y.
Proof.
  destruct x as [a | a | | a m e], y as [b | b | | b m' e']; cbn [same];
    try discriminate; intros H.
  - apply Bool.eqb_prop in H. congruence.
  - apply Bool.eqb_prop in H. congruence.
  - reflexivity.
  - apply andb_prop in H. destruct H as [H He]. apply andb_prop in H.
    destruct H as [Hs Hm].
    apply Bool.eqb_prop in Hs. apply Pos.eqb_eq in Hm. apply Z.eqb_eq in He.
    congruence.
Qed.

Lemma upto_all (k : nat) (f : Z -> bool) :
  forallb f (upto k) = true ->
  forall n, 0 <= n <= Z.of_nat k -> f n = true.
Proof.
  intros Hall n Hn. rewrite forallb_forall in Hall. apply Hall.
  unfold upto. apply in_map_iff. exists (Z.to_nat n). split.
  - apply Z2Nat.id. lia.
  - apply in_seq. lia.
Qed.

Lemma of_Z_not_nan (n : Z) : 0 <= n <= 100 -> is_nan (of_Z n) = false.
Proof.
  intros Hn.
  assert (H : negb (is_nan (of_Z n)) = true).
  { apply (upto_all 100 (fun n => negb (is_nan (of_Z n)))); [vm_compute; reflexivity | lia]. }
  destruct (is_nan (of_Z n)); [discriminate | reflexivity].
Qed.

(** The clamped ratio times 100 is +0 or a positive value of at most 100. *)
Lemma product_at_most_100 (x : number) :
  valid x = true -> is_nan x = false ->
  at_most_100 (mul (Math_max [of_Z 0; Math_min [of_Z 1; x]]) (of_Z 100)).
Proof.
  intros Hv Hn. rewrite (clamp_eq x Hn). cbv zeta.
  destruct (ltb x (of_Z 1)) eqn:Hlt.
  - destruct (ltb (of_Z 0) x) eqn:Hpos.
    + destruct x as [s | s | | s m e]; try discriminate.
      * destruct s; discriminate.
      * destruct s; [discriminate|].
        destruct (below_one m e Hv Hlt) as [He Hm].
        unfold mul. change (of_Z 100) with (S754_finite false 7036874417766400 (-46)).
        cbn [SFmul xorb].
        apply binary_round_aux_bound; try lia.
        rewrite Pos2Z.inj_mul.
        replace (- (e + -46)) with (- e - 53 + 99) by lia.
        rewrite Z.pow_add_r by lia.
        assert (Hge : 1 <= 2 ^ (- e - 53)) by (apply (Z.pow_le_mono_r 2 0); lia).
        change (2 ^ 99) with (2 ^ 53 * 2 ^ 46).
        change (Z.pos 7036874417766400) with (100 * 2 ^ 46).
        change (2 ^ 53) with 9007199254740992 in *. change (2 ^ 46) with 70368744177664.
        nia.
    + left. reflexivity.
  - right. exists 7036874417766400%positive, (-46).
    split; [reflexivity|]. split; [lia|].
    change (2 ^ (- -46)) with 70368744177664. lia.
Qed.

Lemma ltb_of_leb_swap (x y : number) : leb y x = true -> ltb x y = false.
Proof.
  unfold leb, ltb, SFleb, SFltb.
  destruct x as [a | a | | a m e], y as [b | b | | b m' e']; cbn [SFcompare];
    try discriminate; try reflexivity;
    try (destruct a; try discriminate; reflexivity);
    try (destruct b; try discriminate; reflexivity);
    try (destruct a, b; try discriminate; reflexivity).
  destruct a, b; try discriminate; try reflexivity;
    rewrite (Z.compare_antisym e' e);
    change (Pos.compare_cont Eq m m') with (Pos.compare_cont (CompOpp Eq) m m');
    rewrite <- (Pos.compare_cont_antisym m' m Eq);
    destruct (Z.compare e' e); cbn [CompOpp]; try discriminate; try reflexivity;
    destruct (Pos.compare_cont Eq m' m); cbn [CompOpp]; try discriminate; reflexivity.
Qed.

Lemma leb_not_nan_r (x y : number) : leb y x = true -> is_nan x = false.
Proof.
  unfold leb, SFleb. destruct x; try reflexivity.
  destruct y; cbn [SFcompare]; discriminate.
Qed.

Lemma leb_not_nan_l (x y : number) : leb x y = true -> is_nan x = false.
Proof.
  unfold leb, SFleb. destruct x; try reflexivity. cbn [SFcompare]. discriminate.
Qed.

Lemma leb_of_not_ltb (x y : number) :
  is_nan x = false -> is_nan y = false -> ltb x y = false -> leb y x = true.
Proof.
  unfold leb, ltb, SFleb, SFltb.
  destruct x as [a | a | | a m e], y as [b | b | | b m' e']; cbn [SFcompare is_nan];
    intros Hx Hy; try discriminate; try reflexivity;
    try (destruct a; try discriminate; reflexivity);
    try (destruct b; try discriminate; reflexivity);
    try (destruct a, b; try discriminate; reflexivity).
  destruct a, b; try discriminate; try reflexivity;
    rewrite (Z.compare_antisym e e');
    change (Pos.compare_cont Eq m' m) with (Pos.compare_cont (CompOpp Eq) m' m);
    rewrite <- (Pos.compare_cont_antisym m m' Eq);
    destruct (Z.compare e e'); cbn [CompOpp]; try discriminate; try reflexivity;
    destruct (Pos.compare_cont Eq m m'); cbn [CompOpp]; try discriminate; reflexivity.
Qed.

(** [Math.max(0, Math.min(1, x))] is the clamp of [x] to [0,1]. *)
Lemma clamp_clamps (x : number) : is_nan x = false ->
  clamps_to x (Math_max [of_Z 0; Math_min [of_Z 1; x]]).
Proof.
  intros Hn. rewrite (clamp_eq x Hn). cbv zeta. unfold clamps_to.
  destruct (ltb x (of_Z 1)) eqn:Hlt.
  - destruct (ltb (of_Z 0) x) eqn:Hpos.
    + right. right. repeat split; assumption.
    + left. split; [|reflexivity].
      apply (leb_of_not_ltb (of_Z 0) x); [reflexivity | exact Hn | exact Hpos].
  - right. left. split; [|reflexivity].
    apply (leb_of_not_ltb x (of_Z 1)); [exact Hn | reflexivity | exact Hlt].
Qed.

(** On a value between 0 and 100, [Math.round] gives the nearest integer,
    the upper one on a tie, and that integer is between 0 and 100. *)
Lemma Math_round_nearest (y : number) :
  at_most_100 y ->
  exists n, nearest_half_up y n /\ 0 <= n <= 100 /\ Math_round y = of_Z n.
Proof.
  intros [-> | (m & e & -> & He & Hb)].
  - exists 0. split; [reflexivity|]. split; [lia | reflexivity].
  - exists (round_half_up (Zpos m) e). split; [|split].
    + cbn [nearest_half_up cond_Zopp].
      replace (0 <=? e) with false by (symmetry; apply Z.leb_gt; lia).
      unfold round_half_up.
      replace (1 - e) with (Z.succ (- e)) by lia. rewrite Z.pow_succ_r by lia.
      assert (Hd : 0 < 2 ^ (- e)) by (apply Z.pow_pos_nonneg; lia).
      remember (2 ^ (- e)) as d eqn:Ed. remember (Zpos m) as z eqn:Ez.
      pose proof (Z.div_mod (2 * z + d) (2 * d) ltac:(lia)) as Hdm.
      pose proof (Z.mod_pos_bound (2 * z + d) (2 * d) ltac:(lia)) as Hmod.
      remember ((2 * z + d) / (2 * d)) as q eqn:Eq.
      remember ((2 * z + d) mod (2 * d)) as r eqn:Er.
      split; nia.
    + apply round_half_up_range; assumption.
    + unfold Math_round. replace (0 <=? e) with false by (symmetry; apply Z.leb_gt; lia).
      reflexivity.
Qed.

(** C1. For every binary64 ratio that is a number (anything but NaN: all
    finite values, both zeros and both infinities), [calcDefinedPct] is
    defined and returns the number of an integer between 0 and 100, got in
    three steps: the ratio is clamped to [0,1] (0 for a ratio up to 0,
    negative ones included, 1 for a ratio from 1 upwards, the ratio itself
    in between); the clamped value is multiplied by 100, a binary64
    product; and the product is rounded to the nearest integer, upward on
    a tie.  No step fails, whether the ratio is in range or not. *)
Theorem calcDefinedPct_range (x : number) :
  valid x = true -> is_nan x = false ->
  exists (c y : number) (n : Z),
    clamps_to x c /\
    y = SFmul prec emax c (of_Z 100) /\
    nearest_half_up y n /\
    0 <= n <= 100 /\
    calcDefinedPct x = of_Z n.
Proof.
  intros Hv Hn.
  destruct (Math_round_nearest _ (product_at_most_100 x Hv Hn)) as (n & Hnear & Hr & E).
  exists (Math_max [of_Z 0; Math_min [of_Z 1; x]]).
  exists (SFmul prec emax (Math_max [of_Z 0; Math_min [of_Z 1; x]]) (of_Z 100)).
  exists n.
  split; [exact (clamp_clamps x Hn)|].
  split; [reflexivity|].
  split; [exact Hnear|].
  split; [exact Hr | exact E].
Qed.

Lemma calcDefinedPct_range_witness :
  exists (c y : number) (n : Z),
    clamps_to (lit 67 100) c /\
    y = SFmul prec emax c (of_Z 100) /\
    nearest_half_up y n /\
    0 <= n <= 100 /\
    calcDefinedPct (lit 67 100) = of_Z n.
Proof.
  apply (calcDefinedPct_range (lit 67 100)); reflexivity.
Defined.

(** Every ratio from 1 upwards, +Infinity included, is shown as 100. *)
Theorem calcDefinedPct_saturates_high (x : number) :
  leb (of_Z 1) x = true -> calcDefinedPct x = of_Z 100.
Proof.
  intros H. unfold calcDefinedPct.
  rewrite (clamp_eq x (leb_not_nan_r x (of_Z 1) H)). cbv zeta.
  rewrite (ltb_of_leb_swap x (of_Z 1) H). reflexivity.
Qed.

Lemma calcDefinedPct_saturates_high_witness :
  calcDefinedPct (lit 12 10) = of_Z 100 /\ calcDefinedPct pinf = of_Z 100.
Proof.
  split.
  - apply (calcDefinedPct_saturates_high (lit 12 10)). reflexivity.
  - apply (calcDefinedPct_saturates_high pinf). reflexivity.
Defined.

(** Every ratio up to 0 (both zeros, every negative value, -Infinity) is
    shown as 0, and never as -0. *)
Theorem calcDefinedPct_saturates_low (x : number) :
  leb x (of_Z 0) = true -> calcDefinedPct x = of_Z 0.
Proof.
  intros H. unfold calcDefinedPct.
  rewrite (clamp_eq x (leb_not_nan_l x (of_Z 0) H)). cbv zeta.
  pose proof (ltb_of_leb_swap (of_Z 0) x H) as H0.
  destruct (ltb x (of_Z 1)) eqn:Hlt.
  - rewrite H0. reflexivity.
  - exfalso. destruct x as [[] | [] | | [] m e]; try discriminate.
Qed.

Lemma calcDefinedPct_saturates_low_witness :
  calcDefinedPct (neg (lit 2 10)) = of_Z 0 /\ calcDefinedPct nzero = of_Z 0.
Proof.
  split.
  - apply (calcDefinedPct_saturates_low (neg (lit 2 10))). reflexivity.
  - apply (calcDefinedPct_saturates_low nzero). reflexivity.
Defined.

(** The result is NaN exactly when the ratio is. *)
Theorem calcDefinedPct_nan_iff (x : number) :
  valid x = true ->
  (is_nan (calcDefinedPct x) = true <-> is_nan x = true).
Proof.
  intros Hv. split.
  - intros H. destruct (is_nan x) eqn:Hn; [reflexivity|].
    destruct (Math_round_at_most_100 _ (product_at_most_100 x Hv Hn)) as (n & Hr & E).
    unfold calcDefinedPct in H. rewrite E, (of_Z_not_nan n Hr) in H. discriminate.
  - intros H. destruct x; try discriminate. reflexivity.
Qed.

Lemma calcDefinedPct_nan_iff_witness :
  (is_nan (calcDefinedPct NaN) = true <-> is_nan NaN = true) /\
  (is_nan (calcDefinedPct (lit 67 100)) = true <-> is_nan (lit 67 100) = true).
Proof.
  split.
  - apply (calcDefinedPct_nan_iff NaN). reflexivity.
  - apply (calcDefinedPct_nan_iff (lit 67 100)). reflexivity.
Defined.

(** A whole percentage written as a ratio comes back: for every integer n
    from 0 to 100, the ratio n/100 is shown as n. *)
Theorem calcDefinedPct_whole_percent (n : Z) :
  0 <= n <= 100 -> calcDefinedPct (lit n 100) = of_Z n.
Proof.
  intros Hn. apply same_eq.
  apply (upto_all 100 (fun n => same (calcDefinedPct (lit n 100)) (of_Z n)));
    [vm_compute; reflexivity | lia].
Qed.

Lemma calcDefinedPct_whole_percent_witness :
  calcDefinedPct (lit 67 100) = of_Z 67.
Proof.
  apply (calcDefinedPct_whole_percent 67). lia.
Defined.

(** On the ratios k/1000 the helper rounds the half up, floor((k+5)/10),
    for every k from 0 to 1000 but four: 0.145, 0.285, 0.565 and 0.575
    times 100 fall just below the half in binary64 and are shown as 14,
    28, 56 and 57. *)
Theorem calcDefinedPct_thousandths (k : Z) :
  0 <= k <= 1000 ->
  calcDefinedPct (lit k 1000) =
    of_Z (if existsb (Z.eqb k) [145; 285; 565; 575] then (k + 5) / 10 - 1
          else (k + 5) / 10).
Proof.
  intros Hk. apply same_eq.
  apply (upto_all 1000
           (fun k => same (calcDefinedPct (lit k 1000))
                       (of_Z (if existsb (Z.eqb k) [145; 285; 565; 575]
                              then (k + 5) / 10 - 1 else (k + 5) / 10))));
    [vm_compute; reflexivity | lia].
Qed.

Lemma calcDefinedPct_thousandths_witness :
  calcDefinedPct (lit 145 1000) = of_Z 14 /\ calcDefinedPct (lit 345 1000) = of_Z 35.
Proof.
  split.
  - apply (calcDefinedPct_thousandths 145). lia.
  - apply (calcDefinedPct_thousandths 345). lia.
Defined.

End NumberFacts.

(* ===================================================================== *)
(** * Facts about strings and [trim]                                      *)
(* ===================================================================== *)

Module StrFacts.

Import Str.

Lemma eqb_refl (a : jsstring) : eqb a a = true.
Proof.
  induction a as [| x a IH]; [reflexivity|].
  cbn [eqb]. rewrite N.eqb_refl. exact IH.
Qed.

Lemma eqb_eq (a b : jsstring) : eqb a b = true <-> a = b.
Proof.
  split.
  - revert b. induction a as [| x a IH]; intros [| y b] H; try discriminate.
    + reflexivity.
    + cbn [eqb] in H. apply andb_prop in H. destruct H as [Hxy Hab].
      apply N.eqb_eq in Hxy. subst y. f_equal. apply IH. exact Hab.
  - intros ->. apply eqb_refl.
Qed.

Lemma eqb_neq (a b : jsstring) : eqb a b = false <-> a <> b.
Proof.
  split.
  - intros H E. apply eqb_eq in E. congruence.
  - intros H. destruct (eqb a b) eqn:E; [|reflexivity].
    apply eqb_eq in E. contradiction.
Qed.

(** ** [trimStart] *)

Lemma trimStart_split (s : jsstring) :
  exists pre, s = pre ++ trimStart s /\ forallb isWhiteSpace pre = true.
Proof.
  induction s as [| c s (pre & Hs & Hpre)].
  - exists []. split; reflexivity.
  - cbn [trimStart]. destruct (isWhiteSpace c) eqn:Hc.
    + exists (c :: pre). split.
      * cbn [app]. f_equal. exact Hs.
      * cbn [forallb]. rewrite Hc. exact Hpre.
    + exists []. split; reflexivity.
Qed.

Lemma trimStart_head (s : jsstring) (c : N) (r : jsstring) :
  trimStart s = c :: r -> isWhiteSpace c = false.
Proof.
  induction s as [| x s IH]; [discriminate|].
  cbn [trimStart]. destruct (isWhiteSpace x) eqn:Hx.
  - exact IH.
  - intros H. injection H as -> _. exact Hx.
Qed.

Lemma trimStart_white (s : jsstring) :
  forallb isWhiteSpace s = true -> trimStart s = [].
Proof.
  induction s as [| c s IH]; [reflexivity|].
  cbn [forallb trimStart]. intros H. apply andb_prop in H. destruct H as [Hc Hs].
  rewrite Hc. apply IH. exact Hs.
Qed.

Lemma trimStart_nil_white (s : jsstring) :
  trimStart s = [] -> forallb isWhiteSpace s = true.
Proof.
  intros H. destruct (trimStart_split s) as (pre & Hs & Hpre).
  rewrite H, app_nil_r in Hs. subst pre. exact Hpre.
Qed.

Lemma trimStart_fixed (s : jsstring) (c : N) :
  isWhiteSpace c = false -> trimStart (c :: s) = c :: s.
Proof.
  intros H. cbn [trimStart]. rewrite H. reflexivity.
Qed.

Lemma trimStart_idem (s : jsstring) : trimStart (trimStart s) = trimStart s.
Proof.
  destruct (trimStart s) as [| c r] eqn:E; [reflexivity|].
  apply trimStart_fixed. exact (trimStart_head s _ _ E).
Qed.

(** [trimStart] removes a prefix only: a non-white last code unit stays. *)
Lemma trimStart_snoc (s : jsstring) (c : N) :
  isWhiteSpace c = false -> trimStart (s ++ [c]) = trimStart s ++ [c].
Proof.
  intros Hc. induction s as [| x s IH].
  - cbn [app trimStart]. rewrite Hc. reflexivity.
  - cbn [app trimStart]. destruct (isWhiteSpace x); [exact IH | reflexivity].
Qed.

Lemma forallb_rev (f : N -> bool) (s : jsstring) :
  forallb f (rev s) = forallb f s.
Proof.
  induction s as [| c s IH]; [reflexivity|].
  cbn [rev forallb]. rewrite forallb_app, IH. cbn [forallb].
  rewrite andb_true_r. apply andb_comm.
Qed.

(** ** [trimEnd] *)

Lemma trimEnd_split (s : jsstring) :
  exists post, s = trimEnd s ++ post /\ forallb isWhiteSpace post = true.
Proof.
  unfold trimEnd. destruct (trimStart_split (rev s)) as (pre & Hs & Hpre).
  exists (rev pre). split.
  - rewrite <- rev_app_distr, <- Hs, rev_involutive. reflexivity.
  - rewrite forallb_rev. exact Hpre.
Qed.

Lemma trimEnd_white (s : jsstring) :
  forallb isWhiteSpace s = true -> trimEnd s = [].
Proof.
  intros H. unfold trimEnd. rewrite trimStart_white; [reflexivity|].
  rewrite forallb_rev. exact H.
Qed.

Lemma trimEnd_nil_white (s : jsstring) :
  trimEnd s = [] -> forallb isWhiteSpace s = true.
Proof.
  unfold trimEnd. intros H.
  assert (Hr : trimStart (rev s) = []).
  { rewrite <- (rev_involutive (trimStart (rev s))), H. reflexivity. }
  apply trimStart_nil_white in Hr. rewrite forallb_rev in Hr. exact Hr.
Qed.

Lemma trimEnd_last (s r : jsstring) (c : N) :
  trimEnd s = r ++ [c] -> isWhiteSpace c = false.
Proof.
  unfold trimEnd. intros H.
  assert (Hr : trimStart (rev s) = c :: rev r).
  { rewrite <- (rev_involutive (trimStart (rev s))), H, rev_app_distr. reflexivity. }
  exact (trimStart_head (rev s) _ _ Hr).
Qed.

Lemma trimEnd_cons (s : jsstring) (c : N) :
  isWhiteSpace c = false -> trimEnd (c :: s) = c :: trimEnd s.
Proof.
  intros Hc. unfold trimEnd. cbn [rev].
  rewrite trimStart_snoc by exact Hc.
  rewrite rev_app_distr. reflexivity.
Qed.

Lemma trimEnd_idem (s : jsstring) : trimEnd (trimEnd s) = trimEnd s.
Proof.
  unfold trimEnd. rewrite rev_involutive, trimStart_idem. reflexivity.
Qed.

(** ** [trim] *)

Lemma trim_white (s : jsstring) :
  forallb isWhiteSpace s = true -> trim s = [].
Proof.
  intros H. unfold trim. rewrite (trimStart_white s H). reflexivity.
Qed.

Lemma trim_nil_white (s : jsstring) :
  trim s = [] -> forallb isWhiteSpace s = true.
Proof.
  unfold trim. intros H. apply trimEnd_nil_white in H.
  destruct (trimStart s) as [| c r] eqn:E.
  - exact (trimStart_nil_white s E).
  - cbn [forallb] in H. rewrite (trimStart_head s _ _ E) in H. discriminate.
Qed.

Lemma trim_head (s r : jsstring) (c : N) :
  trim s = c :: r -> isWhiteSpace c = false.
Proof.
  unfold trim. intros H.
  destruct (trimStart s) as [| x t] eqn:E; [discriminate|].
  pose proof (trimStart_head s _ _ E) as Hx.
  rewrite (trimEnd_cons t _ Hx) in H. injection H as -> _. exact Hx.
Qed.

Lemma trim_last (s r : jsstring) (c : N) :
  trim s = r ++ [c] -> isWhiteSpace c = false.
Proof.
  unfold trim. apply trimEnd_last.
Qed.

Lemma trim_fixed (s : jsstring) :
  trim s <> [] -> trimStart (trim s) = trim s.
Proof.
  intros Hne. destruct (trim s) as [| c r] eqn:E; [contradiction|].
  apply trimStart_fixed. exact (trim_head s _ _ E).
Qed.

Lemma includes_app (pre p post : jsstring) : includes (pre ++ p ++ post) p = true.
Proof.
  assert (Hsw : forall q t : jsstring, startsWith (q ++ t) q = true).
  { induction q as [| x q IH]; intros t; [destruct t; reflexivity|].
    cbn [app startsWith]. rewrite N.eqb_refl. apply IH. }
  induction pre as [| x pre IH].
  - cbn [app]. destruct (p ++ post) eqn:E.
    + cbn [includes]. rewrite <- E, Hsw. reflexivity.
    + cbn [includes]. rewrite <- E, Hsw. reflexivity.
  - cbn [app includes]. rewrite IH. apply orb_true_r.
Qed.


Lemma trim_idem (s : jsstring) : trim (trim s) = trim s.
Proof.
  destruct (trim s) as [| c r] eqn:E; [reflexivity|].
  rewrite <- E.
  assert (Hne : trim s <> []) by (rewrite E; discriminate).
  unfold trim at 1. rewrite (trim_fixed s Hne).
  unfold trim. apply trimEnd_idem.
Qed.

Lemma trim_split (s : jsstring) :
  exists pre post,
    s = pre ++ trim s ++ post /\
    forallb isWhiteSpace pre = true /\ forallb isWhiteSpace post = true.
Proof.
  destruct (trimStart_split s) as (pre & Hpre & Hwpre).
  destruct (trimEnd_split (trimStart s)) as (post & Hpost & Hwpost).
  exists pre, post. unfold trim. rewrite <- Hpost. repeat split; assumption.
Qed.

End StrFacts.

(* ===================================================================== *)
(** * Facts about the dashboard tables                                    *)
(* ===================================================================== *)

Module DashboardFacts.

Import Str Dashboard.

(** C5, as first stated, fails: the previous tag of the fifth team is
    "Orange", which is none of Red, Yellow and Green. *)
Lemma teams_prev_outside_enumeration :
  ~ (forall t, In t teams ->
       is_status_tag (status t) = true /\ is_status_tag (prev t) = true).
Proof.
  intros H.
  destruct (H {| name := lit "SupportTeam(DesignPlatform)"; status := lit "Red";
                 prev := lit "Orange"; backlog := 8 |}) as [_ Hprev].
  - unfold teams. do 4 right. left. reflexivity.
  - vm_compute in Hprev. discriminate.
Qed.

(** C5, amended.  Every team's current tag is one of Red, Yellow and
    Green; every team's previous tag is one of them as well, except for
    SupportTeam(DesignPlatform), whose previous tag is "Orange". *)
Theorem teams_status_tags :
  Forall (fun t =>
            is_status_tag (status t) = true /\
            (is_status_tag (prev t) = true \/
             (name t = lit "SupportTeam(DesignPlatform)" /\ prev t = lit "Orange")))
         teams.
Proof.
  unfold teams.
  repeat (apply Forall_cons; [split; [reflexivity | first [left; reflexivity | right; split; reflexivity]] |]).
  apply Forall_nil.
Qed.

(** C9. [statusColor] answers for every string: emerald for "Green",
    yellow for "Yellow" and rose for anything else, "Orange" included. *)
Theorem statusColor_total :
  (forall s : jsstring,
     (s = lit "Green" /\ statusColor s = lit "bg-emerald-500") \/
     (s = lit "Yellow" /\ statusColor s = lit "bg-yellow-400") \/
     (s <> lit "Green" /\ s <> lit "Yellow" /\ statusColor s = lit "bg-rose-500")) /\
  statusColor (lit "Orange") = lit "bg-rose-500".
Proof.
  split; [|reflexivity].
  intros s. unfold statusColor.
  destruct (eqb s (lit "Green")) eqn:Hg.
  - left. apply StrFacts.eqb_eq in Hg. split; [exact Hg | reflexivity].
  - destruct (eqb s (lit "Yellow")) eqn:Hy.
    + right. left. apply StrFacts.eqb_eq in Hy. split; [exact Hy | reflexivity].
    + right. right. apply StrFacts.eqb_neq in Hg. apply StrFacts.eqb_neq in Hy.
      repeat split; assumption.
Qed.


(** The donut chart always adds up: for every ratio that is a number, the
    "Defined" slice is [calcDefinedPct] of the ratio, an integer n between
    0 and 100; the "Undefined" slice is exactly 100 - n; and the two
    slices together make exactly 100. *)
Theorem donutData_adds_up (k : kpis_t) :
  Number.valid (definedRatio k) = true ->
  Number.is_nan (definedRatio k) = false ->
  exists n, (0 <= n <= 100)%Z /\
    Number.calcDefinedPct (definedRatio k) = Number.of_Z n /\
    donutData_of k =
      [(lit "Defined", Number.calcDefinedPct (definedRatio k));
       (lit "Undefined", Number.of_Z (100 - n))] /\
    List.map snd (donutData_of k) = [Number.of_Z n; Number.of_Z (100 - n)] /\
    fold_left Number.add (List.map snd (donutData_of k)) (Number.of_Z 0)
      = Number.of_Z 100.
Proof.
  intros Hv Hn.
  destruct (NumberFacts.Math_round_at_most_100 _
              (NumberFacts.product_at_most_100 (definedRatio k) Hv Hn))
    as (n & Hr & E).
  assert (Hsub : Number.sub (Number.of_Z 100) (Number.of_Z n) = Number.of_Z (100 - n)).
  { apply NumberFacts.same_eq.
    apply (NumberFacts.upto_all 100
             (fun n => Number.same (Number.sub (Number.of_Z 100) (Number.of_Z n))
                         (Number.of_Z (100 - n))));
      [vm_compute; reflexivity | lia]. }
  assert (Hadd : Number.add (Number.add (Number.of_Z 0) (Number.of_Z n))
                            (Number.of_Z (100 - n)) = Number.of_Z 100).
  { apply NumberFacts.same_eq.
    apply (NumberFacts.upto_all 100
             (fun n => Number.same
                         (Number.add (Number.add (Number.of_Z 0) (Number.of_Z n))
                                     (Number.of_Z (100 - n)))
                         (Number.of_Z 100)));
      [vm_compute; reflexivity | lia]. }
  assert (Hc : Number.calcDefinedPct (definedRatio k) = Number.of_Z n) by exact E.
  exists n. split; [exact Hr|]. split; [exact Hc|].
  unfold donutData_of. cbn [List.map snd fold_left]. rewrite Hc, Hsub.
  split; [reflexivity|]. split; [reflexivity | exact Hadd].
Qed.

Lemma donutData_adds_up_witness :
  exists n, (0 <= n <= 100)%Z /\
    Number.calcDefinedPct (definedRatio kpis) = Number.of_Z n /\
    donutData_of kpis =
      [(lit "Defined", Number.calcDefinedPct (definedRatio kpis));
       (lit "Undefined", Number.of_Z (100 - n))] /\
    List.map snd (donutData_of kpis) = [Number.of_Z n; Number.of_Z (100 - n)] /\
    fold_left Number.add (List.map snd (donutData_of kpis)) (Number.of_Z 0)
      = Number.of_Z 100.
Proof.
  apply (donutData_adds_up kpis); reflexivity.
Defined.

End DashboardFacts.

(* ===================================================================== *)
(** * Facts about the insight views                                       *)
(* ===================================================================== *)

Module InsightFacts.

Import Str Insight.

(** C6. The union [InsightKey] has exactly the six members recommendation,
    risk, achievement, ai, teamPlanning and healthPerformance; [titleMap]
    has exactly these six property names; each key has a title, which is
    not empty, and no two keys share a title. *)
Theorem titleMap_keys :
  (forall k : InsightKey, In k all_keys) /\
  NoDup all_keys /\
  List.map fst titleMap = List.map key_name all_keys /\
  List.map fst titleMap =
    [lit "recommendation"; lit "risk"; lit "achievement"; lit "ai";
     lit "teamPlanning"; lit "healthPerformance"] /\
  (forall k, exists t, get titleMap (key_name k) = Some t /\ t <> []) /\
  (forall k1 k2, get titleMap (key_name k1) = get titleMap (key_name k2) -> k1 = k2).
Proof.
  split; [intros []; unfold all_keys; cbn [In]; tauto|].
  split.
  { unfold all_keys.
    repeat (apply NoDup_cons; [cbn [In]; intros H; repeat destruct H as [H | H]; try discriminate H; exact H|]).
    apply NoDup_nil. }
  split; [reflexivity|].
  split; [reflexivity|].
  split.
  - intros []; eexists; (split; [vm_compute; reflexivity | discriminate]).
  - intros [] []; intros H; try reflexivity; vm_compute in H; discriminate H.
Qed.


(** ** The views of [App] *)

Lemma selection_step (e : app_event) (a : app) :
  (view a = insights -> selected a <> None) ->
  view (app_step e a) = insights -> selected (app_step e a) <> None.
Proof.
  intros Ha. destruct e as [i | |]; cbn [app_step].
  - destruct (view a) eqn:Hv.
    + destruct (nth_error dashboard_buttons i) as [[label key] |].
      * intros _. cbn [openInsights selected]. discriminate.
      * rewrite Hv. discriminate.
    + rewrite Hv. exact Ha.
  - destruct (view a) eqn:Hv.
    + rewrite Hv. discriminate.
    + cbn [onBack view]. discriminate.
  - cbn [onToggleTests view selected]. exact Ha.
Qed.

Lemma selection_reachable (es : list app_event) : forall a,
  (view a = insights -> selected a <> None) ->
  view (app_run es a) = insights -> selected (app_run es a) <> None.
Proof.
  induction es as [| e es IH]; intros a Ha; [exact Ha|].
  cbn [app_run fold_left]. apply IH. apply selection_step. exact Ha.
Qed.

(** Whenever the full view is on screen a key is selected, and the heading
    is the title of that key: the fallback to the "ai" title for a missing
    selection is never what the user sees. *)
Theorem full_view_has_selection (es : list app_event) :
  view (app_run es app_init) = insights ->
  exists k t,
    selected (app_run es app_init) = Some k /\
    heading (selected (app_run es app_init)) = Some t /\
    get titleMap (key_name k) = Some t /\
    t <> [].
Proof.
  intros Hv.
  pose proof (selection_reachable es app_init) as H.
  destruct (selected (app_run es app_init)) as [k |] eqn:Es.
  - destruct k; eexists _, _;
      (split; [reflexivity | split; [vm_compute; reflexivity | split; [vm_compute; reflexivity | discriminate]]]).
  - exfalso. apply H; [discriminate | exact Hv | reflexivity].
Qed.

Lemma full_view_has_selection_witness :
  exists k t,
    selected (app_run [ClickOpen 3; ClickRunTests] app_init) = Some k /\
    heading (selected (app_run [ClickOpen 3; ClickRunTests] app_init)) = Some t /\
    get titleMap (key_name k) = Some t /\
    t <> [].
Proof.
  apply (full_view_has_selection [ClickOpen 3; ClickRunTests]). reflexivity.
Defined.

(** From any state of [App], the full view on any key is at most two
    clicks away (back to the dashboard if need be, then one button), and
    it then shows the title of that key. *)
Theorem any_view_within_two_clicks (a : app) (k : InsightKey) :
  exists es,
    List.length es <= 2 /\
    view (app_run es a) = insights /\
    selected (app_run es a) = Some k /\
    heading (selected (app_run es a)) = get titleMap (key_name k).
Proof.
  set (i := match k with
            | ai => 0 | recommendation => 1 | risk => 3
            | achievement => 5 | teamPlanning => 7 | healthPerformance => 9
            end).
  assert (Hi : exists label, nth_error dashboard_buttons i = Some (label, k))
    by (destruct k; eexists; reflexivity).
  destruct Hi as (label & Hi).
  destruct (view a) eqn:Hv.
  - exists [ClickOpen i]. cbn [app_run fold_left app_step List.length].
    rewrite Hv, Hi. cbn [openInsights view selected heading]. repeat split. lia.
  - exists [ClickBack; ClickOpen i]. cbn [app_run fold_left app_step List.length].
    rewrite Hv. cbn [onBack view]. rewrite Hi.
    cbn [openInsights view selected heading]. repeat split. lia.
Qed.

End InsightFacts.

(* ===================================================================== *)
(** * Facts about the chat widget                                         *)
(* ===================================================================== *)

Module ChatFacts.

Import Str Chat.

(** ** Lists of timers *)

Lemma nth_error_last {A : Type} (l : list A) (x : A) :
  nth_error (l ++ [x]) (List.length l) = Some x.
Proof.
  induction l as [| y l IH]; [reflexivity | exact IH].
Qed.

Lemma remove_nth_last {A : Type} (l : list A) (x : A) :
  remove_nth (List.length l) (l ++ [x]) = l.
Proof.
  induction l as [| y l IH]; [reflexivity|].
  cbn [List.length app remove_nth]. f_equal. exact IH.
Qed.

(** ** What [send] does *)

Lemma send_empty (w : widget) : trim (msg w) = [] -> send w = w.
Proof.
  intros H. unfold send, send_at. rewrite H. reflexivity.
Qed.

Lemma send_nonempty (w : widget) : trim (msg w) <> [] ->
  send w =
  {| msg := []; loading := true;
     history := history w ++ [{| m_role := user; content := trim (msg w) |}];
     appeared := appeared w; open := open w; now := now w;
     timers := timers w ++ [{| due := (now w + 600)%N; job := ReplyTask (trim (msg w)) |}] |}.
Proof.
  intros H. unfold send, send_at. destruct (trim (msg w)) as [| c r]; [contradiction|].
  reflexivity.
Qed.

(** ** Every operation appends to the history *)

Lemma send_appends (w : widget) : exists suffix, history (send w) = history w ++ suffix.
Proof.
  unfold send, send_at. destruct (falsy (trim (msg w))).
  - exists []. symmetry. apply app_nil_r.
  - eexists. reflexivity.
Qed.

Lemma onClose_history (w : widget) : history (onClose w) = history w.
Proof.
  unfold onClose, effect_open. destruct (open w); reflexivity.
Qed.

Lemma onOpen_history (w : widget) : history (onOpen w) = history w.
Proof.
  unfold onOpen, effect_open. destruct (open w); reflexivity.
Qed.

Lemma run_task_appends (j : task) (w : widget) :
  exists suffix, history (run_task j w) = history w ++ suffix.
Proof.
  destruct j as [text | |]; cbn [run_task].
  - eexists. reflexivity.
  - exists []. rewrite onClose_history. symmetry. apply app_nil_r.
  - exists []. symmetry. apply app_nil_r.
Qed.

Lemma fire_appends (i : nat) (w : widget) :
  exists suffix, history (fire i w) = history w ++ suffix.
Proof.
  unfold fire. destruct (nth_error (timers w) i) as [t |].
  - destruct (due t <=? now w)%N.
    + exact (run_task_appends (job t) (dequeue i w)).
    + exists []. symmetry. apply app_nil_r.
  - exists []. symmetry. apply app_nil_r.
Qed.

Lemma step_appends (e : event) (w : widget) :
  exists suffix, history (step e w) = history w ++ suffix.
Proof.
  assert (Hsame : exists suffix, history w = history w ++ suffix)
    by (exists []; symmetry; apply app_nil_r).
  destruct e as [| | v | key | | dt | i]; cbn [step].
  - destruct (open w); [exact Hsame|].
    rewrite onOpen_history. exact Hsame.
  - destruct (open w); exact Hsame.
  - destruct (open w); exact Hsame.
  - destruct (open w); [|exact Hsame].
    destruct (eqb key (lit "Enter")); [apply send_appends | exact Hsame].
  - destruct (open w && negb (loading w)); [apply send_appends | exact Hsame].
  - exact Hsame.
  - apply fire_appends.
Qed.

Lemma run_appends (es : list event) : forall w : widget,
  exists suffix, history (run es w) = history w ++ suffix.
Proof.
  induction es as [| e es IH]; intros w.
  - exists []. symmetry. apply app_nil_r.
  - cbn [run fold_left]. destruct (IH (step e w)) as (s2 & H2).
    destruct (step_appends e w) as (s1 & H1).
    exists (s1 ++ s2). unfold run in H2. rewrite H2, H1, app_assoc. reflexivity.
Qed.

(** C3. When the input is empty or holds white space only, [send] leaves
    the widget as it is: the history, and every other part of the state,
    is unchanged, whether [send] is reached through the Enter key or the
    Send button.  Nothing is shown to the user. *)
Theorem send_blank_ignored (w : widget) :
  forallb isWhiteSpace (msg w) = true ->
  send w = w /\
  history (send w) = history w /\
  step (KeyDown (lit "Enter")) w = w /\
  step ClickSend w = w.
Proof.
  intros Hws.
  assert (Hs : send w = w) by (apply send_empty, StrFacts.trim_white, Hws).
  repeat split.
  - exact Hs.
  - rewrite Hs. reflexivity.
  - cbn [step]. destruct (open w); [|reflexivity].
    change (eqb (lit "Enter") (lit "Enter")) with true. cbv iota. exact Hs.
  - cbn [step]. destruct (open w && negb (loading w)); [exact Hs | reflexivity].
Qed.

Lemma send_blank_ignored_witness :
  let w := setChatOpen true (setMsg [32; 9; 160; 10; 8232]%N init) in
  send w = w /\
  history (send w) = history w /\
  step (KeyDown (lit "Enter")) w = w /\
  step ClickSend w = w.
Proof.
  apply (send_blank_ignored (setChatOpen true (setMsg [32; 9; 160; 10; 8232]%N init))).
  reflexivity.
Defined.

(** C4. With "hello" in the input, [send] at once appends one user entry
    with content "hello" and schedules one callback, due 600 ms later.
    The callback cannot run before that; when it runs it appends one
    assistant entry, whose content has "hello" inside it, so that the
    history is the old one, then the user entry, then the reply. *)
Theorem send_hello (w : widget) :
  msg w = lit "hello" ->
  let w1 := send w in
  let i := List.length (timers w) in
  history w1 = history w ++ [{| m_role := user; content := lit "hello" |}] /\
  timers w1 = timers w ++ [{| due := (now w + 600)%N; job := ReplyTask (lit "hello") |}] /\
  (forall dt, (dt < 600)%N -> step (Fire i) (step (Tick dt) w1) = step (Tick dt) w1) /\
  history (step (Fire i) (step (Tick 600) w1)) =
    history w ++ [{| m_role := user; content := lit "hello" |};
                  {| m_role := assistant; content := reply (lit "hello") |}] /\
  includes (reply (lit "hello")) (lit "hello") = true.
Proof.
  intros Hmsg w1 i.
  assert (Htrim : trim (msg w) = lit "hello") by (rewrite Hmsg; reflexivity).
  assert (Hw1 : w1 =
    {| msg := []; loading := true;
       history := history w ++ [{| m_role := user; content := lit "hello" |}];
       appeared := appeared w; open := open w; now := now w;
       timers := timers w ++ [{| due := (now w + 600)%N; job := ReplyTask (lit "hello") |}] |}).
  { unfold w1. rewrite send_nonempty; rewrite Htrim; [reflexivity | discriminate]. }
  rewrite Hw1. cbn [history timers].
  split; [reflexivity|]. split; [reflexivity|]. split; [|split].
  - intros dt Hdt. cbn [step]. unfold fire, tick. cbn [timers now].
    unfold i. rewrite nth_error_last. cbn [due].
    replace (now w + 600 <=? now w + dt)%N with false; [reflexivity|].
    symmetry. apply N.leb_gt. lia.
  - cbn [step]. unfold fire, tick. cbn [timers now].
    unfold i. rewrite nth_error_last. cbn [due job].
    rewrite N.leb_refl. cbn [run_task dequeue setHistory setLoading history].
    rewrite <- app_assoc. reflexivity.
  - vm_compute. reflexivity.
Qed.

Lemma send_hello_witness :
  let w := setMsg (lit "hello") init in
  let w1 := send w in
  let i := List.length (timers w) in
  history w1 = history w ++ [{| m_role := user; content := lit "hello" |}] /\
  timers w1 = timers w ++ [{| due := (now w + 600)%N; job := ReplyTask (lit "hello") |}] /\
  (forall dt, (dt < 600)%N -> step (Fire i) (step (Tick dt) w1) = step (Tick dt) w1) /\
  history (step (Fire i) (step (Tick 600) w1)) =
    history w ++ [{| m_role := user; content := lit "hello" |};
                  {| m_role := assistant; content := reply (lit "hello") |}] /\
  includes (reply (lit "hello")) (lit "hello") = true.
Proof.
  apply (send_hello (setMsg (lit "hello") init)). reflexivity.
Defined.

(** C7. The history only grows at its end: [send], each scheduled
    callback, each single event and each sequence of events leave a
    history that is the former one followed by what was appended; no
    entry already present is removed, moved or changed. *)
Theorem history_append_only :
  (forall w, exists suffix, history (send w) = history w ++ suffix) /\
  (forall j w, exists suffix, history (run_task j w) = history w ++ suffix) /\
  (forall e w, exists suffix, history (step e w) = history w ++ suffix) /\
  (forall es w, exists suffix, history (run es w) = history w ++ suffix).
Proof.
  split; [exact send_appends|].
  split; [exact run_task_appends|].
  split; [exact step_appends | exact run_appends].
Qed.

(** C8. Exchanges are not kept apart: while a reply is awaited ([loading]
    is true), [send] with an input that is not blank appends the new user
    entry all the same and schedules a second reply; the Enter key reaches
    [send] in that state. *)
Theorem send_while_loading (w : widget) :
  loading w = true -> trim (msg w) <> [] ->
  history (send w) =
    history w ++ [{| m_role := user; content := trim (msg w) |}] /\
  timers (send w) =
    timers w ++ [{| due := (now w + 600)%N; job := ReplyTask (trim (msg w)) |}] /\
  step (KeyDown (lit "Enter")) (setChatOpen true w) = send (setChatOpen true w).
Proof.
  intros _ Hne. rewrite (send_nonempty w Hne). cbn [history timers].
  repeat split.
Qed.

Lemma send_while_loading_witness :
  let w := setLoading true (setMsg (lit "again") init) in
  history (send w) =
    history w ++ [{| m_role := user; content := trim (msg w) |}] /\
  timers (send w) =
    timers w ++ [{| due := (now w + 600)%N; job := ReplyTask (trim (msg w)) |}] /\
  step (KeyDown (lit "Enter")) (setChatOpen true w) = send (setChatOpen true w).
Proof.
  apply (send_while_loading (setLoading true (setMsg (lit "again") init))).
  - reflexivity.
  - vm_compute. discriminate.
Defined.

(** C10. The history starts as the single greeting of the assistant, and
    in every state the widget can reach it is not empty and its first
    entry is that greeting. *)
Theorem history_starts_with_greeting :
  history init = [greeting] /\
  m_role greeting = assistant /\
  forall es, exists rest, history (run es init) = greeting :: rest.
Proof.
  split; [reflexivity|]. split; [reflexivity|].
  intros es. destruct (run_appends es init) as (suffix & H).
  exists suffix. exact H.
Qed.


(** ** Shape of a step *)

Lemma step_cases (P : widget -> widget -> Prop) :
  (forall w, P w w) ->
  (forall w, open w = false -> P w (onOpen w)) ->
  (forall w, P w (handleClose w)) ->
  (forall v w, P w (setMsg v w)) ->
  (forall w, trim (msg w) <> [] -> P w (send w)) ->
  (forall dt w, P w (tick dt w)) ->
  (forall i t w, nth_error (timers w) i = Some t ->
                 P w (run_task (job t) (dequeue i w))) ->
  forall e w, P w (step e w).
Proof.
  intros Hid Hopen Hclose Hmsg Hsend Htick Hfire e w.
  assert (Hs : P w (send w)).
  { destruct (trim (msg w)) as [| c r] eqn:E.
    - rewrite (send_empty w E). apply Hid.
    - apply Hsend. rewrite E. discriminate. }
  destruct e as [| | v | key | | dt | i]; cbn [step].
  - destruct (open w) eqn:Ho; [apply Hid | apply Hopen; exact Ho].
  - destruct (open w); [apply Hclose | apply Hid].
  - destruct (open w); [apply Hmsg | apply Hid].
  - destruct (open w); [|apply Hid].
    destruct (eqb key (lit "Enter")); [exact Hs | apply Hid].
  - destruct (open w && negb (loading w)); [exact Hs | apply Hid].
  - apply Htick.
  - unfold fire. destruct (nth_error (timers w) i) as [t |] eqn:E; [|apply Hid].
    destruct (due t <=? now w)%N; [|apply Hid].
    apply (Hfire i t w E).
Qed.

Lemma run_invariant (P : widget -> Prop) :
  (forall e w, P w -> P (step e w)) ->
  forall es w, P w -> P (run es w).
Proof.
  intros Hstep es. induction es as [| e es IH]; intros w Hw; [exact Hw|].
  cbn [run fold_left]. apply IH. apply Hstep. exact Hw.
Qed.

Lemma onOpen_closed (w : widget) : open w = false ->
  onOpen w = setTimeout AppearTask 0 (setChatOpen true w).
Proof.
  intros H. unfold onOpen. rewrite H. reflexivity.
Qed.

Lemma onClose_timers (w : widget) : timers (onClose w) = timers w.
Proof.
  unfold onClose, effect_open. destruct (open w); reflexivity.
Qed.

Lemma onClose_loading (w : widget) : loading (onClose w) = loading w.
Proof.
  unfold onClose, effect_open. destruct (open w); reflexivity.
Qed.

Lemma onClose_now (w : widget) : now (onClose w) = now w.
Proof.
  unfold onClose, effect_open. destruct (open w); reflexivity.
Qed.

Lemma run_task_timers (j : task) (w : widget) : timers (run_task j w) = timers w.
Proof.
  destruct j; cbn [run_task]; [reflexivity | apply onClose_timers | reflexivity].
Qed.

Lemma run_task_now (j : task) (w : widget) : now (run_task j w) = now w.
Proof.
  destruct j; cbn [run_task]; [reflexivity | apply onClose_now | reflexivity].
Qed.

(** ** Counting entries and pending replies *)

Lemma count_app {A : Type} (p : A -> bool) (l1 l2 : list A) :
  count p (l1 ++ l2) = count p l1 + count p l2.
Proof.
  unfold count. rewrite filter_app. apply length_app.
Qed.

Lemma count_remove_nth {A : Type} (p : A -> bool) (i : nat) : forall (l : list A) (t : A),
  nth_error l i = Some t ->
  count p l = (if p t then 1 else 0) + count p (remove_nth i l).
Proof.
  induction i as [| i IH]; intros [| x l] t H; try discriminate.
  - injection H as ->. unfold count. cbn [remove_nth filter].
    destruct (p t); reflexivity.
  - cbn [nth_error] in H. unfold count in *. cbn [remove_nth filter].
    specialize (IH l t H). destruct (p x); cbn [List.length]; lia.
Qed.

Lemma In_remove_nth {A : Type} (i : nat) : forall (l : list A) (x : A),
  In x (remove_nth i l) -> In x l.
Proof.
  induction i as [| i IH]; intros [| y l] x H; cbn [remove_nth] in H.
  - exact H.
  - right. exact H.
  - exact H.
  - destruct H as [-> | H]; [left; reflexivity | right; apply IH; exact H].
Qed.

(** ** Exchanges *)

Lemma send_send (w : widget) : send (send w) = send w.
Proof.
  destruct (trim (msg w)) as [| c r] eqn:E.
  - rewrite (send_empty w E). apply (send_empty w E).
  - assert (Hne : trim (msg w) <> []) by (rewrite E; discriminate).
    rewrite (send_nonempty w Hne). apply send_empty. reflexivity.
Qed.

Lemma send_open (w : widget) : open (send w) = open w.
Proof.
  unfold send, send_at. destruct (falsy (trim (msg w))); reflexivity.
Qed.

(** Submitting twice in a row, by two events (Enter twice, the Send button
    twice, or Enter and then the button), is submitting once: the component is rendered again after
    the first event, whose [send] has emptied the input, so the [send] of
    the second event finds nothing to submit.  It is the render in between
    that prevents the duplicate: the [send] of one and the same render,
    called twice, appends the user entry twice. *)
Theorem submit_twice (w : widget) :
  step (KeyDown (lit "Enter")) (step (KeyDown (lit "Enter")) w)
    = step (KeyDown (lit "Enter")) w /\
  step ClickSend (step ClickSend w) = step ClickSend w /\
  step ClickSend (step (KeyDown (lit "Enter")) w)
    = step (KeyDown (lit "Enter")) w /\
  (trim (msg w) <> [] ->
   history (send_at (msg w) (send_at (msg w) w)) =
     history w ++ [{| m_role := user; content := trim (msg w) |};
                   {| m_role := user; content := trim (msg w) |}]).
Proof.
  assert (Henter : forall v, step (KeyDown (lit "Enter")) v = if open v then send v else v).
  { intros v. cbn [step]. change (eqb (lit "Enter") (lit "Enter")) with true.
    destruct (open v); reflexivity. }
  assert (Hclick : forall v, step ClickSend v
                             = if open v && negb (loading v) then send v else v)
    by reflexivity.
  assert (Hopen := send_open w). assert (Hss := send_send w).
  split; [|split; [|split]].
  - rewrite !Henter. destruct (open w) eqn:Ho; rewrite ?Hopen, ?Ho, ?Hss; reflexivity.
  - rewrite (Hclick w). destruct (open w && negb (loading w)) eqn:Hg.
    + rewrite Hclick, Hss. destruct (open (send w) && negb (loading (send w))); reflexivity.
    + rewrite Hclick, Hg. reflexivity.
  - rewrite (Henter w). destruct (open w) eqn:Ho.
    + rewrite Hclick, Hss. destruct (open (send w) && negb (loading (send w))); reflexivity.
    + rewrite Hclick, Ho. reflexivity.
  - intros Hne. unfold send_at. destruct (trim (msg w)) as [| c r]; [contradiction|].
    cbn [falsy setTimeout setLoading setHistory setMsg history]. rewrite <- app_assoc.
    reflexivity.
Qed.

Lemma submit_twice_witness :
  let w := setChatOpen true (setMsg (lit "hello") init) in
  (step (KeyDown (lit "Enter")) (step (KeyDown (lit "Enter")) w)
     = step (KeyDown (lit "Enter")) w /\
   step ClickSend (step ClickSend w) = step ClickSend w /\
   step ClickSend (step (KeyDown (lit "Enter")) w)
     = step (KeyDown (lit "Enter")) w) /\
  history (step (KeyDown (lit "Enter")) w) =
    [greeting; {| m_role := user; content := lit "hello" |}] /\
  history (send_at (msg w) (send_at (msg w) w)) =
    [greeting; {| m_role := user; content := lit "hello" |};
               {| m_role := user; content := lit "hello" |}].
Proof.
  pose proof (submit_twice (setChatOpen true (setMsg (lit "hello") init)))
    as (H1 & H2 & H3 & H5).
  split; [repeat split; assumption|].
  split; [reflexivity|].
  apply H5. vm_compute. discriminate.
Defined.

(** While a reply is awaited the Send button does nothing, but the Enter
    key still submits. *)
Theorem send_button_guard (w : widget) :
  open w = true -> loading w = true ->
  step ClickSend w = w /\ step (KeyDown (lit "Enter")) w = send w.
Proof.
  intros Ho Hl. cbn [step]. rewrite Ho, Hl. split; reflexivity.
Qed.

Lemma send_button_guard_witness :
  let w := setLoading true (setChatOpen true (setMsg (lit "more") init)) in
  (step ClickSend w = w /\ step (KeyDown (lit "Enter")) w = send w) /\
  history (send w) <> history w.
Proof.
  split.
  - apply (send_button_guard
             (setLoading true (setChatOpen true (setMsg (lit "more") init))));
      reflexivity.
  - vm_compute. discriminate.
Defined.

(** What [send] keeps of the input: the input is white space, then the
    content of the new user entry, then white space; the content begins
    and ends with a code unit that is not white space.  The input box is
    emptied and [loading] is set. *)
Theorem send_strips (w : widget) :
  trim (msg w) <> [] ->
  exists pre text post,
    msg w = pre ++ text ++ post /\
    forallb isWhiteSpace pre = true /\
    forallb isWhiteSpace post = true /\
    (exists c r, text = c :: r /\ isWhiteSpace c = false) /\
    (exists r c, text = r ++ [c] /\ isWhiteSpace c = false) /\
    history (send w) = history w ++ [{| m_role := user; content := text |}] /\
    msg (send w) = [] /\
    loading (send w) = true.
Proof.
  intros Hne.
  destruct (StrFacts.trimStart_split (msg w)) as (pre & Hpre & Hwpre).
  destruct (StrFacts.trimEnd_split (trimStart (msg w))) as (post & Hpost & Hwpost).
  exists pre, (trim (msg w)), post.
  rewrite (send_nonempty w Hne). cbn [history msg loading].
  split; [unfold trim; rewrite <- Hpost; exact Hpre|].
  split; [exact Hwpre|]. split; [exact Hwpost|].
  split; [|split; [|repeat split]].
  - destruct (trim (msg w)) as [| c r] eqn:E; [contradiction|].
    exists c, r. split; [reflexivity | exact (StrFacts.trim_head (msg w) r c E)].
  - destruct (exists_last Hne) as (r & c & E).
    exists r, c. split; [exact E | exact (StrFacts.trim_last (msg w) r c E)].
Qed.

Lemma send_strips_witness :
  let w := setMsg ([32; 9]%N ++ lit "hi there" ++ [10]%N) init in
  exists pre text post,
    msg w = pre ++ text ++ post /\
    forallb isWhiteSpace pre = true /\
    forallb isWhiteSpace post = true /\
    (exists c r, text = c :: r /\ isWhiteSpace c = false) /\
    (exists r c, text = r ++ [c] /\ isWhiteSpace c = false) /\
    history (send w) = history w ++ [{| m_role := user; content := text |}] /\
    msg (send w) = [] /\
    loading (send w) = true.
Proof.
  apply (send_strips (setMsg ([32; 9]%N ++ lit "hi there" ++ [10]%N) init)).
  vm_compute. discriminate.
Defined.

(** The canned reply quotes the submitted text as it is, whatever the
    text, and two different texts never get the same reply. *)
Theorem reply_quotes (text : jsstring) :
  includes (reply text) text = true /\
  (forall text', reply text = reply text' -> text = text').
Proof.
  split.
  - unfold reply. rewrite (app_assoc (lit "Here's a draft based on: ") [dquote]).
    apply StrFacts.includes_app.
  - intros text' H. unfold reply in H.
    apply app_inv_head in H. apply app_inv_head in H.
    apply app_inv_tail in H. exact H.
Qed.

Lemma reply_quotes_witness :
  includes (reply (lit "hello")) (lit "hello") = true /\
  (reply (lit "hello") = reply (lit "hello") -> lit "hello" = lit "hello").
Proof.
  split.
  - exact (proj1 (reply_quotes (lit "hello"))).
  - exact (proj2 (reply_quotes (lit "hello")) (lit "hello")).
Defined.


(** *** Bookkeeping *)

Lemma bookkeeping_step (e : event) (w : widget) :
  count is_assistant (history w) + count is_reply (timers w)
    = S (count is_user (history w)) ->
  count is_assistant (history (step e w)) + count is_reply (timers (step e w))
    = S (count is_user (history (step e w))).
Proof.
  revert e w.
  apply (step_cases (fun w w' =>
    count is_assistant (history w) + count is_reply (timers w)
      = S (count is_user (history w)) ->
    count is_assistant (history w') + count is_reply (timers w')
      = S (count is_user (history w')))).
  - intros w H. exact H.
  - intros w Ho H. rewrite (onOpen_closed w Ho). cbn [history timers setTimeout setChatOpen].
    rewrite count_app. cbn. lia.
  - intros w H. cbn [handleClose history timers setTimeout setAppeared].
    rewrite count_app. cbn. lia.
  - intros v w H. exact H.
  - intros w Hne H. rewrite (send_nonempty w Hne). cbn [history timers].
    rewrite !count_app. cbn. lia.
  - intros dt w H. exact H.
  - intros i t w Ht H.
    rewrite (count_remove_nth is_reply i (timers w) t Ht) in H.
    rewrite run_task_timers. cbn [dequeue timers].
    unfold is_reply in H at 1.
    destruct (job t) as [text | |]; cbn [run_task].
    + cbn [setLoading setHistory history dequeue]. rewrite !count_app. cbn. lia.
    + rewrite onClose_history. cbn [dequeue history]. lia.
    + cbn [setAppeared history dequeue]. lia.
Qed.

Lemma bookkeeping_reachable (es : list event) :
  count is_assistant (history (run es init)) + count is_reply (timers (run es init))
    = S (count is_user (history (run es init))).
Proof.
  apply (run_invariant
           (fun w => count is_assistant (history w) + count is_reply (timers w)
                     = S (count is_user (history w)))).
  - intros e w. apply bookkeeping_step.
  - reflexivity.
Qed.

(** In every state the widget can reach, each user entry has its reply,
    either in the history already or pending: the assistant entries and the
    pending replies together are one more (the greeting) than the user
    entries, so the history and the pending replies together count one
    plus twice the user entries. *)
Theorem exchange_bookkeeping (es : list event) :
  let w := run es init in
  count is_assistant (history w) + count is_reply (timers w)
    = S (count is_user (history w)) /\
  List.length (history w) + count is_reply (timers w)
    = 1 + 2 * count is_user (history w).
Proof.
  intros w. pose proof (bookkeeping_reachable es) as H. fold w in H.
  split; [exact H|].
  assert (Hlen : List.length (history w)
                 = count is_user (history w) + count is_assistant (history w)).
  { clear H. unfold count, is_assistant.
    induction (history w) as [| m h IH]; [reflexivity|].
    cbn [filter]. destruct (is_user m); cbn [negb List.length]; lia. }
  lia.
Qed.

(** *** The typing indicator *)

Lemma indicator_step (e : event) (w : widget) :
  (loading w = true -> 0 < count is_reply (timers w)) ->
  loading (step e w) = true -> 0 < count is_reply (timers (step e w)).
Proof.
  revert e w.
  apply (step_cases (fun w w' =>
    (loading w = true -> 0 < count is_reply (timers w)) ->
    loading w' = true -> 0 < count is_reply (timers w'))).
  - intros w H. exact H.
  - intros w Ho H. rewrite (onOpen_closed w Ho). cbn [loading timers setTimeout setChatOpen].
    intros Hl. rewrite count_app. specialize (H Hl). lia.
  - intros w H. cbn [handleClose loading timers setTimeout setAppeared].
    intros Hl. rewrite count_app. specialize (H Hl). lia.
  - intros v w H. exact H.
  - intros w Hne _ _. rewrite (send_nonempty w Hne). cbn [timers].
    rewrite count_app. cbn. lia.
  - intros dt w H. exact H.
  - intros i t w Ht H.
    rewrite (count_remove_nth is_reply i (timers w) t Ht) in H.
    rewrite run_task_timers. cbn [dequeue timers].
    unfold is_reply in H at 1.
    destruct (job t) as [text | |]; cbn [run_task].
    + cbn [setLoading loading]. discriminate.
    + rewrite onClose_loading. cbn [dequeue loading]. exact H.
    + cbn [setAppeared loading dequeue]. exact H.
Qed.

Lemma indicator_reachable (es : list event) :
  loading (run es init) = true -> 0 < count is_reply (timers (run es init)).
Proof.
  apply (run_invariant
           (fun w => loading w = true -> 0 < count is_reply (timers w))).
  - intros e w. apply indicator_step.
  - discriminate.
Qed.

(** In every reachable state, whenever [loading] is true a reply is
    pending: the typing indicator is never shown with nothing to wait
    for. *)
Theorem loading_has_pending_reply (es : list event) :
  loading (run es init) = true ->
  existsb is_reply (timers (run es init)) = true.
Proof.
  intros Hl. pose proof (indicator_reachable es Hl) as H.
  unfold count in H.
  destruct (filter is_reply (timers (run es init))) as [| t r] eqn:E;
    [cbn in H; lia|].
  assert (Hin : In t (filter is_reply (timers (run es init)))) by (rewrite E; left; reflexivity).
  apply filter_In in Hin. apply existsb_exists. exists t. exact Hin.
Qed.

Lemma loading_has_pending_reply_witness :
  let es := [ClickAskSusan; Change (lit "status?"); KeyDown (lit "Enter")] in
  loading (run es init) = true /\
  existsb is_reply (timers (run es init)) = true.
Proof.
  split; [reflexivity|].
  apply (loading_has_pending_reply
           [ClickAskSusan; Change (lit "status?"); KeyDown (lit "Enter")]).
  reflexivity.
Defined.

(** The converse does not hold: when two submissions overlap, the first
    reply turns the indicator off while the second is still pending. *)
Theorem indicator_clears_early :
  exists es,
    loading (run es init) = false /\
    existsb is_reply (timers (run es init)) = true.
Proof.
  exists [ClickAskSusan; Change (lit "one"); KeyDown (lit "Enter");
          Change (lit "two"); KeyDown (lit "Enter"); Tick 600; Fire 1].
  split; reflexivity.
Qed.

(** *** What the history holds *)

(** Every user entry of a reachable history is a submitted text as [trim]
    leaves it: not empty, and unchanged by trimming again. *)
Theorem user_entries_trimmed (es : list event) :
  Forall (fun m => m_role m = user ->
                   content m <> [] /\ trim (content m) = content m)
         (history (run es init)).
Proof.
  apply (run_invariant
           (fun w => Forall (fun m => m_role m = user ->
                                      content m <> [] /\ trim (content m) = content m)
                            (history w))).
  - apply (step_cases (fun w w' =>
      Forall (fun m => m_role m = user ->
                       content m <> [] /\ trim (content m) = content m) (history w) ->
      Forall (fun m => m_role m = user ->
                       content m <> [] /\ trim (content m) = content m) (history w'))).
    + intros w H. exact H.
    + intros w _ H. rewrite onOpen_history. exact H.
    + intros w H. exact H.
    + intros v w H. exact H.
    + intros w Hne H. rewrite (send_nonempty w Hne). cbn [history].
      apply Forall_app. split; [exact H|].
      apply Forall_cons; [|apply Forall_nil].
      intros _. cbn [content]. split; [exact Hne | apply StrFacts.trim_idem].
    + intros dt w H. exact H.
    + intros i t w _ H. destruct (job t) as [text | |]; cbn [run_task].
      * cbn [setLoading setHistory history dequeue].
        apply Forall_app. split; [exact H|].
        apply Forall_cons; [|apply Forall_nil]. cbn [m_role]. discriminate.
      * rewrite onClose_history. exact H.
      * exact H.
  - apply Forall_cons; [|apply Forall_nil]. cbn [greeting m_role]. discriminate.
Qed.

Lemma user_entries_trimmed_witness :
  let es := [ClickAskSusan; Change ([32]%N ++ lit "velocity? "); ClickSend] in
  In {| m_role := user; content := lit "velocity?" |} (history (run es init)) /\
  Forall (fun m => m_role m = user ->
                   content m <> [] /\ trim (content m) = content m)
         (history (run es init)).
Proof.
  split.
  - right. left. reflexivity.
  - exact (user_entries_trimmed
             [ClickAskSusan; Change ([32]%N ++ lit "velocity? "); ClickSend]).
Defined.


Lemma snoc_split {A : Type} (h l1 l2 : list A) (x m : A) :
  h ++ [x] = l1 ++ m :: l2 ->
  (l2 = [] /\ m = x /\ l1 = h) \/ (exists l2', l2 = l2' ++ [x] /\ h = l1 ++ m :: l2').
Proof.
  intros H. destruct (@exists_last _ (m :: l2)) as (l & y & E); [discriminate|].
  destruct l2 as [| z l2].
  - left. change (l1 ++ [m]) with (l1 ++ [m]) in H.
    apply app_inj_tail in H. destruct H as [-> ->]. repeat split.
  - right. destruct (@exists_last _ (z :: l2)) as (l2' & y' & E'); [discriminate|].
    exists l2'. rewrite E' in H |- *.
    change (l1 ++ m :: l2' ++ [y']) with (l1 ++ (m :: l2') ++ [y']) in H.
    rewrite app_assoc in H. apply app_inj_tail in H. destruct H as [-> ->].
    split; reflexivity.
Qed.

Lemma answers_snoc_user (h : list message) (text : jsstring) :
  answers_in_order h ->
  answers_in_order (h ++ [{| m_role := user; content := text |}]).
Proof.
  intros Hh l1 m l2 E Hm. apply snoc_split in E.
  destruct E as [(_ & -> & _) | (l2' & _ & E)].
  - discriminate.
  - exact (Hh l1 m l2' E Hm).
Qed.

Lemma answers_snoc_reply (h : list message) (text : jsstring) :
  answers_in_order h ->
  In {| m_role := user; content := text |} h ->
  answers_in_order (h ++ [{| m_role := assistant; content := reply text |}]).
Proof.
  intros Hh Hin l1 m l2 E Hm. apply snoc_split in E.
  destruct E as [(_ & -> & ->) | (l2' & _ & E)].
  - right. exists text. split; [reflexivity | exact Hin].
  - exact (Hh l1 m l2' E Hm).
Qed.

Lemma replies_owed_step (e : event) (w : widget) :
  replies_owed w -> replies_owed (step e w).
Proof.
  revert e w.
  apply (step_cases (fun w w' => replies_owed w -> replies_owed w')).
  - intros w H. exact H.
  - intros w Ho [Ha Ht]. rewrite (onOpen_closed w Ho). split; [exact Ha|].
    cbn [timers history setTimeout setChatOpen]. intros t text Hin Hj.
    apply in_app_or in Hin. destruct Hin as [Hin | [<- | []]].
    + exact (Ht t text Hin Hj).
    + discriminate.
  - intros w [Ha Ht]. split; [exact Ha|].
    cbn [handleClose timers history setTimeout setAppeared]. intros t text Hin Hj.
    apply in_app_or in Hin. destruct Hin as [Hin | [<- | []]].
    + exact (Ht t text Hin Hj).
    + discriminate.
  - intros v w H. exact H.
  - intros w Hne [Ha Ht]. rewrite (send_nonempty w Hne). split; cbn [history timers].
    + apply answers_snoc_user. exact Ha.
    + intros t text Hin Hj. apply in_or_app.
      apply in_app_or in Hin. destruct Hin as [Hin | [<- | []]].
      * left. exact (Ht t text Hin Hj).
      * right. cbn [job] in Hj. injection Hj as ->. left. reflexivity.
  - intros dt w H. exact H.
  - intros i t w Hnth [Ha Ht].
    assert (Hin : In t (timers w)) by (eapply nth_error_In; exact Hnth).
    assert (Hrest : forall t' text, In t' (remove_nth i (timers w)) ->
              job t' = ReplyTask text ->
              In {| m_role := user; content := text |} (history w)).
    { intros t' text Hin' Hj. apply (Ht t' text); [|exact Hj].
      apply (In_remove_nth i). exact Hin'. }
    destruct (job t) as [text | |] eqn:Hj; cbn [run_task].
    + split; cbn [setLoading setHistory history timers dequeue].
      * apply answers_snoc_reply; [exact Ha | exact (Ht t text Hin Hj)].
      * intros t' text' Hin' Hj'. apply in_or_app. left.
        exact (Hrest t' text' Hin' Hj').
    + split.
      * rewrite onClose_history. exact Ha.
      * rewrite onClose_history, onClose_timers. exact Hrest.
    + split; [exact Ha | exact Hrest].
Qed.

(** In every reachable history an assistant entry is either the greeting in
    first place or the canned reply to a user entry that stands before it:
    a reply never comes ahead of its question and never answers a text
    that was not submitted. *)
Theorem replies_follow_questions (es : list event) :
  answers_in_order (history (run es init)).
Proof.
  refine (proj1 (_ : replies_owed (run es init))).
  apply (run_invariant replies_owed replies_owed_step es init).
  split.
  - intros l1 m l2 E _. left. cbn [init history] in E.
    destruct l1 as [| x l1].
    + injection E as <- _. split; reflexivity.
    + injection E as _ E. destruct l1; discriminate.
  - intros t text [].
Qed.

Lemma replies_follow_questions_witness :
  let es := [ClickAskSusan; Change (lit "risks"); KeyDown (lit "Enter");
             Tick 600; Fire 1] in
  history (run es init) =
    [greeting; {| m_role := user; content := lit "risks" |};
     {| m_role := assistant; content := reply (lit "risks") |}] /\
  answers_in_order (history (run es init)).
Proof.
  split.
  - reflexivity.
  - exact (replies_follow_questions
             [ClickAskSusan; Change (lit "risks"); KeyDown (lit "Enter");
              Tick 600; Fire 1]).
Defined.


(** *** Settling *)

Lemma due_bound_step (e : event) (w : widget) :
  Forall (fun t => (due t <= now w + 600)%N) (timers w) ->
  Forall (fun t => (due t <= now (step e w) + 600)%N) (timers (step e w)).
Proof.
  revert e w.
  apply (step_cases (fun w w' =>
    Forall (fun t => (due t <= now w + 600)%N) (timers w) ->
    Forall (fun t => (due t <= now w' + 600)%N) (timers w'))).
  - intros w H. exact H.
  - intros w Ho H. rewrite (onOpen_closed w Ho). cbn [timers now setTimeout setChatOpen].
    apply Forall_app. split; [exact H|].
    apply Forall_cons; [cbn [due]; lia | apply Forall_nil].
  - intros w H. cbn [handleClose timers now setTimeout setAppeared].
    apply Forall_app. split; [exact H|].
    apply Forall_cons; [cbn [due]; lia | apply Forall_nil].
  - intros v w H. exact H.
  - intros w Hne H. rewrite (send_nonempty w Hne). cbn [timers now].
    apply Forall_app. split; [exact H|].
    apply Forall_cons; [cbn [due]; lia | apply Forall_nil].
  - intros dt w H. cbn [tick timers now].
    apply (Forall_impl _ (P := fun t => (due t <= now w + 600)%N)); [|exact H].
    intros t Ht. lia.
  - intros i t w _ H. rewrite run_task_timers, run_task_now. cbn [dequeue timers now].
    apply Forall_forall. intros t' Hin. rewrite Forall_forall in H.
    apply H. apply (In_remove_nth i). exact Hin.
Qed.

Lemma fire_all (n : nat) : forall w,
  List.length (timers w) = n ->
  Forall (fun t => (due t <= now w)%N) (timers w) ->
  timers (run (repeat (Fire 0) n) w) = [] /\
  exists suffix,
    history (run (repeat (Fire 0) n) w) = history w ++ suffix /\
    Forall (fun m => m_role m = assistant) suffix.
Proof.
  induction n as [| n IH]; intros w Hlen Hdue.
  - cbn [repeat run fold_left]. split.
    + destruct (timers w); [reflexivity | discriminate].
    + exists []. split; [symmetry; apply app_nil_r | apply Forall_nil].
  - destruct (timers w) as [| t rest] eqn:Et; [discriminate|].
    change (run (repeat (Fire 0) (S n)) w) with (run (repeat (Fire 0) n) (fire 0 w)).
    assert (Hf : fire 0 w = run_task (job t) (dequeue 0 w)).
    { unfold fire. rewrite Et. cbn [nth_error].
      inversion Hdue as [| ? ? Ht _]; subst.
      replace (due t <=? now w)%N with true by (symmetry; apply N.leb_le; exact Ht).
      reflexivity. }
    rewrite Hf.
    assert (Htimers : timers (run_task (job t) (dequeue 0 w)) = rest).
    { rewrite run_task_timers. cbn [dequeue timers]. rewrite Et. reflexivity. }
    destruct (IH (run_task (job t) (dequeue 0 w))) as (Hnil & suffix & Hh & Hs).
    + rewrite Htimers. cbn [List.length] in Hlen. lia.
    + rewrite Htimers, run_task_now. cbn [dequeue now].
      inversion Hdue; assumption.
    + split; [exact Hnil|].
      destruct (job t) as [text | |]; cbn [run_task] in Hh |- *.
      * cbn [setLoading setHistory history dequeue] in Hh.
        eexists. rewrite Hh, <- app_assoc. split; [reflexivity|].
        apply Forall_cons; [reflexivity | exact Hs].
      * rewrite onClose_history in Hh. cbn [dequeue history] in Hh.
        exists suffix. split; assumption.
      * cbn [setAppeared dequeue history] in Hh. exists suffix. split; assumption.
Qed.

(** However the widget was used, once 600 ms have passed every pending
    callback can run; after they have all run nothing is pending, the
    typing indicator is off, every user entry has its reply, and the
    entries added meanwhile are all from the assistant. *)
Theorem settle_quiet (es : list event) :
  let w := run es init in
  timers (settle w) = [] /\
  loading (settle w) = false /\
  count is_assistant (history (settle w)) = S (count is_user (history (settle w))) /\
  exists suffix,
    history (settle w) = history w ++ suffix /\
    Forall (fun m => m_role m = assistant) suffix.
Proof.
  intros w.
  assert (Hbound : Forall (fun t => (due t <= now w + 600)%N) (timers w)).
  { apply (run_invariant
             (fun w => Forall (fun t => (due t <= now w + 600)%N) (timers w))
             due_bound_step es init).
    apply Forall_nil. }
  assert (Hsettle : settle w = run (es ++ Tick 600 :: repeat (Fire 0) (List.length (timers w))) init).
  { unfold settle, w, run. rewrite fold_left_app. reflexivity. }
  destruct (fire_all (List.length (timers w)) (tick 600 w)) as (Hnil & suffix & Hh & Hs).
  - reflexivity.
  - exact Hbound.
  - assert (Hrun : settle w = run (repeat (Fire 0) (List.length (timers w))) (tick 600 w))
      by reflexivity.
    split; [rewrite Hrun; exact Hnil|].
    split; [|split].
    + destruct (loading (settle w)) eqn:Hl; [|reflexivity].
      rewrite Hsettle in Hl. apply indicator_reachable in Hl.
      rewrite <- Hsettle, Hrun, Hnil in Hl. change (count is_reply []) with 0 in Hl. lia.
    + pose proof (bookkeeping_reachable
                    (es ++ Tick 600 :: repeat (Fire 0) (List.length (timers w)))) as Hb.
      rewrite <- Hsettle in Hb. rewrite Hrun in Hb at 2. rewrite Hnil in Hb.
      change (count is_reply []) with 0 in Hb. lia.
    + exists suffix. rewrite Hrun. split; [exact Hh | exact Hs].
Qed.

End ChatFacts.
